(** * CombinedModFix: the section-aware rewrite core, embedded in Rocq

    This development embeds the text-processing core of
    [CombinedModFix.py] (the Section Splitter, the FaceFix pass, the
    ORFix pass and the Combined Driver) and states the properties of the
    specification over that embedding.

    Conventions.
    - A Python [str] is a [list ascii]; a character is its code point,
      so the development covers texts whose code points are below 256.
      On that range the tables below ([isspace], [is_linebreak],
      [isdigit], [isword], [lower]) are those of CPython's [str]
      methods and of the [re] module for [str] patterns.
    - A compiled pattern is a value of [regex]; [re_match] and
      [re_search] are a backtracking matcher with Python's priority
      order (greedy and lazy repetition, ordered alternation, groups).
    - A Python [set] of section names is a [gset text].
    - The file read of [process_file_combined] is its argument: [None]
      stands for a read that raised. *)

From Stdlib Require Import Ascii String NArith Lia.
From stdpp Require Import base list gmap strings sorting.

Local Open Scope list_scope.

(** ** Characters and strings *)

Definition text := list ascii.

Definition s2l (s : string) : text := list_ascii_of_string s.

Definition code (c : ascii) : N := N_of_ascii c.

Definition LF : ascii := ascii_of_N 10.
Definition CR : ascii := ascii_of_N 13.

Definition between (lo hi n : N) : bool := (N.leb lo n && N.leb n hi)%bool.

(** [str.isspace], which is also the class [\s] of a [str] pattern. *)
Definition isspace (c : ascii) : bool :=
  let n := code c in
  (between 9 13 n || between 28 32 n || N.eqb n 133 || N.eqb n 160)%bool.

(** The line boundaries of [str.splitlines]. *)
Definition is_linebreak (c : ascii) : bool :=
  let n := code c in
  (between 10 13 n || between 28 30 n || N.eqb n 133)%bool.

(** The class [\d]. *)
Definition isdigit (c : ascii) : bool := between 48 57 (code c).

(** The class [\w]: alphanumeric or underscore. *)
Definition isword (c : ascii) : bool :=
  let n := code c in
  (between 48 57 n || between 65 90 n || N.eqb n 95 || between 97 122 n
   || N.eqb n 170 || between 178 179 n || N.eqb n 181 || between 185 186 n
   || between 188 190 n || between 192 214 n || between 216 246 n
   || between 248 255 n)%bool.

(** [str.lower] on one character of code point below 256. *)
Definition lower (c : ascii) : ascii :=
  let n := code c in
  if (between 65 90 n || (between 192 222 n && negb (N.eqb n 215)))%bool
  then ascii_of_N (n + 32) else c.

(** [s.lower()]; on code points below 256 it works character by
    character. *)
Definition str_lower (s : text) : text := map lower s.

Definition ascii_eqb (a b : ascii) : bool := Ascii.eqb a b.

Fixpoint text_eqb (a b : text) : bool :=
  match a, b with
  | [], [] => true
  | x :: a', y :: b' => ascii_eqb x y && text_eqb a' b'
  | _, _ => false
  end.

(** [s.startswith(p)] *)
Fixpoint startswith (p s : text) : bool :=
  match p, s with
  | [], _ => true
  | x :: p', y :: s' => ascii_eqb x y && startswith p' s'
  | _ :: _, [] => false
  end.

(** [s.endswith(p)] *)
Definition endswith (p s : text) : bool := startswith (rev p) (rev s).

(** [p in s] for strings *)
Fixpoint contains (p s : text) : bool :=
  startswith p s ||
  match s with
  | [] => false
  | _ :: s' => contains p s'
  end.

Fixpoint drop_while (f : ascii -> bool) (s : text) : text :=
  match s with
  | [] => []
  | c :: s' => if f c then drop_while f s' else s
  end.

(** [s.lstrip()], [s.rstrip()], [s.strip()] *)
Definition lstrip (s : text) : text := drop_while isspace s.
Definition rstrip (s : text) : text := rev (drop_while isspace (rev s)).
Definition strip (s : text) : text := rstrip (lstrip s).

(** [s.rstrip('\r\n')] *)
Definition rstrip_crlf (s : text) : text :=
  rev (drop_while (fun c => ascii_eqb c CR || ascii_eqb c LF) (rev s)).

(** [s[1:-1]] *)
Definition slice_1_m1 (s : text) : text := removelast (tl s).

(** [text.splitlines(True)]: the lines with their terminators; a carriage
    return followed by a line feed is one terminator. *)
Fixpoint splitlines (t : text) : list text :=
  match t with
  | [] => []
  | c :: t' =>
      if ascii_eqb c CR then
        match t' with
        | d :: t'' =>
            if ascii_eqb d LF then [c; d] :: splitlines t''
            else [c] :: splitlines t'
        | [] => [[c]]
        end
      else if is_linebreak c then [c] :: splitlines t'
      else match splitlines t' with
           | [] => [[c]]
           | l :: ls => (c :: l) :: ls
           end
  end.

(** [''.join(lines)] *)
Definition join (ls : list text) : text := concat ls.

(** ** Regular expressions

    The patterns of the program quantify single-character atoms only
    ([\s*], [.*], [.+?], [\w*], [\d+], [2?]), so repetition is over a
    character set.  The matcher is written in continuation-passing style:
    the continuation is the rest of the pattern, and a failed continuation
    makes the matcher try the next alternative in Python's order. *)

Inductive cset : Type :=
| CAny                       (* [.]: any character except the line feed *)
| CSpace                     (* [\s] *)
| CDigit                     (* [\d] *)
| CWord                      (* [\w] *)
| CChar (c : ascii)          (* a literal character *)
| CRange (lo hi : ascii).    (* [[lo-hi]] *)

Inductive regex : Type :=
| REps                       (* the empty pattern *)
| RBol                       (* [^] *)
| REol                       (* [$] *)
| RSet (cs : cset)
| RStr (s : string)          (* a run of literal characters *)
| RSeq (r1 r2 : regex)
| RAlt (r1 r2 : regex)       (* [r1|r2] *)
| RStar (cs : cset)          (* [x*] *)
| RPlus (cs : cset)          (* [x+] *)
| RPlusLazy (cs : cset)      (* [x+?] *)
| ROpt (cs : cset)           (* [x?] *)
| RGroup (n : nat) (r : regex).

(** A compiled pattern: the [re.IGNORECASE] flag and the expression. *)
Record pattern : Type := Pattern { ignorecase : bool; body : regex }.

Definition groups := list (nat * text).

Fixpoint group (n : nat) (g : groups) : text :=
  match g with
  | [] => []
  | (m, s) :: g' => if Nat.eqb m n then s else group n g'
  end.

Definition rseq (rs : list regex) : regex := fold_right RSeq REps rs.

Section Matcher.
Variable ic : bool.          (* re.IGNORECASE *)
Variable total : nat.        (* length of the subject string *)

(** A literal character of the pattern against a character of the
    subject; with [re.IGNORECASE], on code points below 256, the two agree
    when their lower-case forms do. *)
Definition char_eq (a c : ascii) : bool :=
  if ic then ascii_eqb (lower c) (lower a) else ascii_eqb c a.

Definition cset_mem (cs : cset) (c : ascii) : bool :=
  match cs with
  | CAny => negb (ascii_eqb c LF)
  | CSpace => isspace c
  | CDigit => isdigit c
  | CWord => isword c
  | CChar a => char_eq a c
  | CRange lo hi => between (code lo) (code hi) (code c)
  end.

(** Match a literal run; the rest of the subject on success. *)
Fixpoint lit (p s : text) : option text :=
  match p, s with
  | [], _ => Some s
  | a :: p', c :: s' => if char_eq a c then lit p' s' else None
  | _ :: _, [] => None
  end.

(** Greedy repetition: take one more character first, give it back when
    the continuation fails. *)
Fixpoint star_greedy (f : ascii -> bool) (s : text)
    (k : text -> option groups) : option groups :=
  match s with
  | c :: s' =>
      if f c then
        match star_greedy f s' k with
        | Some g => Some g
        | None => k s
        end
      else k s
  | [] => k []
  end.

(** Lazy repetition: try the continuation first, take one more
    character when it fails. *)
Fixpoint star_lazy (f : ascii -> bool) (s : text)
    (k : text -> option groups) : option groups :=
  match k s with
  | Some g => Some g
  | None =>
      match s with
      | c :: s' => if f c then star_lazy f s' k else None
      | [] => None
      end
  end.

Fixpoint rmatch (r : regex) (s : text) (g : groups)
    (k : text -> groups -> option groups) : option groups :=
  match r with
  | REps => k s g
  | RBol => if Nat.eqb (length s) total then k s g else None
  | REol =>
      match s with
      | [] => k s g
      | [c] => if ascii_eqb c LF then k s g else None
      | _ => None
      end
  | RSet cs =>
      match s with
      | c :: s' => if cset_mem cs c then k s' g else None
      | [] => None
      end
  | RStr p =>
      match lit (s2l p) s with
      | Some s' => k s' g
      | None => None
      end
  | RSeq r1 r2 => rmatch r1 s g (fun s' g' => rmatch r2 s' g' k)
  | RAlt r1 r2 =>
      match rmatch r1 s g k with
      | Some g' => Some g'
      | None => rmatch r2 s g k
      end
  | RStar cs => star_greedy (cset_mem cs) s (fun s' => k s' g)
  | RPlus cs =>
      match s with
      | c :: s' =>
          if cset_mem cs c
          then star_greedy (cset_mem cs) s' (fun s'' => k s'' g)
          else None
      | [] => None
      end
  | RPlusLazy cs =>
      match s with
      | c :: s' =>
          if cset_mem cs c
          then star_lazy (cset_mem cs) s' (fun s'' => k s'' g)
          else None
      | [] => None
      end
  | ROpt cs =>
      match s with
      | c :: s' =>
          if cset_mem cs c then
            match k s' g with
            | Some g' => Some g'
            | None => k s g
            end
          else k s g
      | [] => k s g
      end
  | RGroup n r1 =>
      rmatch r1 s g
        (fun s' g' => k s' ((n, firstn (length s - length s') s) :: g'))
  end.
End Matcher.

(** [pat.match(s)]: the groups of the match at the start of [s], if any. *)
Definition re_match (p : pattern) (s : text) : option groups :=
  rmatch (ignorecase p) (length s) (body p) s [] (fun _ g => Some g).

Fixpoint search_from (p : pattern) (total : nat) (s : text) : option groups :=
  match rmatch (ignorecase p) total (body p) s [] (fun _ g => Some g) with
  | Some g => Some g
  | None =>
      match s with
      | [] => None
      | _ :: s' => search_from p total s'
      end
  end.

(** [pat.search(s)]: the first match at any position of [s]. *)
Definition re_search (p : pattern) (s : text) : option groups :=
  search_from p (length s) s.

(** The truth value of a match object or [None]. *)
Definition truthy {A : Type} (m : option A) : bool :=
  match m with
  | Some _ => true
  | None => false
  end.

(** ** The patterns of the program *)

(** "(CommandList|TextureOverride)" *)
Definition PREFIX_GROUP : regex :=
  RGroup 1 (RAlt (RStr "CommandList") (RStr "TextureOverride")).

(** "^\[(CommandList|TextureOverride).*<suffix>\]$" *)
Definition prefixed (suffix : string) : pattern :=
  Pattern true
    (rseq [RBol; RStr "["; PREFIX_GROUP; RStar CAny; RStr suffix; RStr "]"; REol]).

(** "^\[CommandList<name><c>?\]$" *)
Definition named_opt (name : string) (c : ascii) : pattern :=
  Pattern true (rseq [RBol; RStr "[CommandList"; RStr name; ROpt (CChar c); RStr "]"; REol]).

Definition COMMANDLIST_EXCLUSIONS : list pattern :=
  [ Pattern true (rseq [RBol; RStr "[CommandListCreditInfo]"; REol]);
    named_opt "LoadA" "2"; named_opt "LoadB" "2";
    named_opt "LoadC" "2"; named_opt "LoadD" "2";
    Pattern true (rseq [RBol; RStr "[CommandListMenu]"; REol]);
    Pattern true
      (rseq [RBol; RStr "[CommandListRandom"; RSet (CRange "0" "5");
             ROpt (CChar "D"); RStr "]"; REol]);
    named_opt "SaveA" "2"; named_opt "SaveB" "2";
    named_opt "SaveC" "2"; named_opt "SaveD" "2" ].

(** The list after [AUTO_EXCLUDE_PATTERNS.extend(COMMANDLIST_EXCLUSIONS)]. *)
Definition AUTO_EXCLUDE_PATTERNS : list pattern :=
  [ Pattern true (rseq [RBol; RStr "["; RStar CAny; RStr "IB"; RStr "]"; REol]);
    prefixed "Position"; prefixed "Texcoord"; prefixed "Blend";
    prefixed "Info"; prefixed "VertexLimitRaise" ]
  ++ COMMANDLIST_EXCLUSIONS.

Definition AUTO_MODE_EXCLUDE_PATTERNS : list pattern :=
  [ Pattern true (RStr "face");
    Pattern true (rseq [RStr "limb"; ROpt (CChar "s")]) ].

(** "^\s*\[(.+?)\]\s*$" *)
Definition SECTION_HEADER_RE : pattern :=
  Pattern true
    (rseq [RBol; RStar CSpace; RStr "["; RGroup 1 (RPlusLazy CAny); RStr "]";
           RStar CSpace; REol]).

(** [PS_T0_RE] (source line 79): start of string; group 1, a greedy run
    of [\s]; group 2, the key [ps-t0]; [\s] run, [=], [\s] run; group 3,
    a lazy non-empty run of [.]; group 4, a greedy run of [\s]; end. *)
Definition PS_T0_RE : pattern :=
  Pattern true
    (rseq [RBol; RGroup 1 (RStar CSpace); RGroup 2 (RStr "ps-t0"); RStar CSpace;
           RStr "="; RStar CSpace; RGroup 3 (RPlusLazy CAny);
           RGroup 4 (RStar CSpace); REol]).

(** [RUN_FACE_RE] (source line 80): start; [\s] run, [run], [\s] run, [=],
    [\s] run; group 1: [CommandList], a [\w] run, [Face], a [\w] run;
    [\s] run; end. *)
Definition RUN_FACE_RE : pattern :=
  Pattern true
    (rseq [RBol; RStar CSpace; RStr "run"; RStar CSpace; RStr "="; RStar CSpace;
           RGroup 1 (rseq [RStr "CommandList"; RStar CWord; RStr "Face"; RStar CWord]);
           RStar CSpace; REol]).

(** "\s*run\s*=\s*CommandList\\global\\ORFix\\(NNFix|ORFix)" *)
Definition RUN_LINE_PATTERN : pattern :=
  Pattern true
    (rseq [RStar CSpace; RStr "run"; RStar CSpace; RStr "="; RStar CSpace;
           RStr "CommandList\global\ORFix\";
           RGroup 1 (RAlt (RStr "NNFix") (RStr "ORFix"))]).

(** "ps-t\d+", used without flags in [process_orfix_block]. *)
Definition PS_SLOT_RE : pattern :=
  Pattern false (rseq [RStr "ps-t"; RPlus CDigit]).

(** "\s*ps-t0\s*=" with [re.IGNORECASE], used in [process_orfix_sections]. *)
Definition PS_T0_ASSIGN_RE : pattern :=
  Pattern true (rseq [RStar CSpace; RStr "ps-t0"; RStar CSpace; RStr "="]).

(** ** Section processing utilities *)

Definition section : Type := option text * list text.

Definition nonempty {A : Type} (l : list A) : bool :=
  match l with
  | [] => false
  | _ :: _ => true
  end.

(** The truth value of a string or [None]. *)
Definition str_truthy (h : option text) : bool :=
  match h with
  | Some (_ :: _) => true
  | _ => false
  end.

(** The text an f-string gives for a string or [None]. *)
Definition fmt (h : option text) : text :=
  match h with
  | Some s => s
  | None => s2l "None"
  end.

(** [f"[{h}]"] *)
Definition bracket (h : option text) : text := s2l "[" ++ fmt h ++ s2l "]".

Record split_state : Type := SplitState
  { sections : list section;
    current_header : option text;
    current_lines : list text }.

Definition split_flush (st : split_state) : list section :=
  if nonempty (current_lines st) || truthy (current_header st)
  then sections st ++ [(current_header st, current_lines st)]
  else sections st.

Definition split_step (st : split_state) (line : text) : split_state :=
  match re_match SECTION_HEADER_RE line with
  | Some m =>
      SplitState (split_flush st) (Some (strip (group 1 m))) [line]
  | None =>
      SplitState (sections st) (current_header st) (current_lines st ++ [line])
  end.

Definition split_into_sections (t : text) : list section :=
  split_flush (fold_left split_step (splitlines t) (SplitState [] None [])).

Definition is_face_section_by_header (header : option text) : bool :=
  if negb (str_truthy header) then false
  else
    let h := str_lower (fmt header) in
    if negb (contains (s2l "face") h) then false
    else if startswith (s2l "commandlist") h || startswith (s2l "textureoverride") h
         then true
         else false.

Definition section_has_run_face (lines : list text) : bool :=
  existsb (fun line => truthy (re_match RUN_FACE_RE line)) lines.

Definition should_auto_exclude_section (header : option text) : bool :=
  if negb (str_truthy header) then false
  else
    let full_header := bracket header in
    existsb (fun pat => truthy (re_match pat full_header)) AUTO_EXCLUDE_PATTERNS.

Definition should_auto_mode_exclude (header : option text) : bool :=
  if negb (str_truthy header) then false
  else existsb (fun pat => truthy (re_search pat (fmt header))) AUTO_MODE_EXCLUDE_PATTERNS.

(** ** Change records *)

Inductive change : Type :=
| FACE (header : option text) (line_no : nat) (old_line new_line : text)
| ORFIX_REMOVE (section_name : option text) (removed : text)
| ORFIX_ADD (section_name : option text) (inserted : text).

(** ** FaceFix processing *)

Record face_state : Type := FaceState
  { changed : list change;
    out_lines : list text;
    file_line_no : nat }.

(** The [allowed] flag of one section. *)
Definition face_allowed (manual_excludes : gset text) (header : option text)
    (lines : list text) : bool :=
  let full_section := if str_truthy header then Some (bracket header) else None in
  if match full_section with
     | Some f => bool_decide (f ∈ manual_excludes)
     | None => false
     end
  then false
  else is_face_section_by_header header || section_has_run_face lines.

(** The line ending the loop computes in its variable [newline]. *)
Definition line_ending (ln : text) : text :=
  if endswith [CR; LF] ln then [CR; LF]
  else if endswith [LF] ln then [LF]
  else [].

(** The body of the inner loop, for one line [ln]. *)
Definition face_line (allowed : bool) (header : option text)
    (st : face_state) (ln : text) : face_state :=
  let n := S (file_line_no st) in
  match (if allowed then re_match PS_T0_RE ln else None) with
  | Some m =>
      let indent := group 1 m in
      let rhs := group 3 m in
      let trailing := group 4 m in
      let newline := line_ending ln in
      let new_line := indent ++ s2l "this = " ++ rhs ++ trailing ++ newline in
      FaceState
        (changed st ++ [FACE header n (rstrip_crlf ln) (rstrip_crlf new_line)])
        (out_lines st ++ [new_line]) n
  | None => FaceState (changed st) (out_lines st ++ [ln]) n
  end.

(** The body of the outer loop, for one section. *)
Definition face_section (manual_excludes : gset text) (st : face_state)
    (sec : section) : face_state :=
  let '(header, lines) := sec in
  fold_left (face_line (face_allowed manual_excludes header lines) header) lines st.

Definition process_face_sections (secs : list section) (auto_mode : bool)
    (manual_excludes : gset text) : list change * text :=
  let st := fold_left (face_section manual_excludes) secs (FaceState [] [] 0) in
  (changed st, join (out_lines st)).

(** ** ORFix processing *)

(** Python exceptions the core can raise, and results of fallible code. *)
Inductive exn : Type := IndexError.

Inductive result (A : Type) : Type :=
| Ok (a : A)
| Raise (e : exn).
Arguments Ok {A} a.
Arguments Raise {A} e.

Definition bind {A B : Type} (m : result A) (k : A -> result B) : result B :=
  match m with
  | Ok a => k a
  | Raise e => Raise e
  end.

Notation "'let*' x ':=' m 'in' k" := (bind m (fun x => k))
  (at level 10, x pattern, m at level 100, k at level 200).

(** [l[i]] *)
Definition py_index {A : Type} (l : list A) (i : nat) : result A :=
  match nth_error l i with
  | Some x => Ok x
  | None => Raise IndexError
  end.

(** [l.insert(i, x)]: an index past the end appends. *)
Definition py_insert {A : Type} (i : nat) (x : A) (l : list A) : list A :=
  firstn i l ++ x :: skipn i l.

Fixpoint fold_result {S A : Type} (f : S -> A -> result S) (l : list A) (s : S)
    : result S :=
  match l with
  | [] => Ok s
  | a :: l' => let* s' := f s a in fold_result f l' s'
  end.

Definition ORFIX_RUN : text := s2l "run = CommandList\global\ORFix\ORFix" ++ [LF].
Definition NNFIX_RUN : text := s2l "run = CommandList\global\ORFix\NNFix" ++ [LF].

(** First pass: copy the lines and record the index of the last slot line. *)
Definition first_pass_step (st : list text * option nat) (line : text)
    : list text * option nat :=
  let new_block := fst st ++ [line] in
  let stripped := lstrip line in
  if truthy (re_match PS_SLOT_RE stripped)
  then (new_block, Some (length new_block - 1))
  else (new_block, snd st).

(** Second pass: drop the run lines, recording each removal. *)
Definition remove_step (section_name : option text)
    (st : list text * list change) (line : text) : list text * list change :=
  if truthy (re_match RUN_LINE_PATTERN line)
  then (fst st, snd st ++ [ORFIX_REMOVE section_name (strip line)])
  else (fst st ++ [line], snd st).

Definition first_pass (block : list text) : list text * option nat :=
  fold_left first_pass_step block ([], None).

Definition second_pass (section_name : option text) (new_block : list text)
    : list text * list change :=
  fold_left (remove_step section_name) new_block ([], []).

Definition process_orfix_block (block : list text) (section_name : option text)
    : result (list text * list change) :=
  if negb (nonempty block) then Ok (block, [])
  else
    let has_normal := existsb (contains (s2l "NormalMap")) block in
    let '(new_block0, last_ps_index) := first_pass block in
    let '(new_block, changes) := second_pass section_name new_block0 in
    match last_ps_index with
    | Some i =>
        if i <? length new_block then
          let correct_run := if has_normal then ORFIX_RUN else NNFIX_RUN in
          let* already :=
            (if i + 1 <? length new_block
             then let* next := py_index new_block (i + 1) in
                  Ok (text_eqb (strip next) (strip correct_run))
             else Ok false) in
          if negb already
          then Ok (py_insert (i + 1) correct_run new_block,
                   changes ++ [ORFIX_ADD section_name (strip correct_run)])
          else Ok (new_block, changes)
        else Ok (new_block, changes)
    | None => Ok (new_block, changes)
    end.

Record orfix_state : Type := OrfixState
  { new_lines : list text;
    block_lines : list text;
    current_section : option text;
    all_changes : list change }.

(** The header test of the scan, on the stripped line. *)
Definition is_block_header (stripped : text) : bool :=
  startswith (s2l "[CommandList") stripped
  || startswith (s2l "[TextureOverride") stripped.

(** The variable [process_block]. *)
Definition process_block (auto_mode : bool) (manual_excludes : gset text)
    (cur : option text) (block : list text) : bool :=
  let contains_ps_t0 :=
    existsb (fun l => truthy (re_match PS_T0_ASSIGN_RE l)) block in
  let inside_auto_excluded := should_auto_exclude_section cur in
  if auto_mode then
    let inside_mode_excluded := should_auto_mode_exclude cur in
    negb inside_auto_excluded && negb inside_mode_excluded && contains_ps_t0
  else
    let inside_manual_excluded := bool_decide (bracket cur ∈ manual_excludes) in
    negb inside_auto_excluded && negb inside_manual_excluded && contains_ps_t0.

(** Processing of a pending block; the source has this code twice, in the
    loop and after it.  The result is the new [new_lines] and
    [all_changes]. *)
Definition flush_block (auto_mode : bool) (manual_excludes : gset text)
    (st : orfix_state) : result (list text * list change) :=
  if nonempty (block_lines st) then
    if process_block auto_mode manual_excludes (current_section st) (block_lines st)
    then
      let* pc := process_orfix_block (block_lines st) (current_section st) in
      Ok (new_lines st ++ fst pc, all_changes st ++ snd pc)
    else Ok (new_lines st ++ block_lines st, all_changes st)
  else Ok (new_lines st, all_changes st).

Definition orfix_step (auto_mode : bool) (manual_excludes : gset text)
    (st : orfix_state) (line : text) : result orfix_state :=
  let stripped := strip line in
  if is_block_header stripped then
    let* nc := flush_block auto_mode manual_excludes st in
    Ok (OrfixState (fst nc ++ [line]) [] (Some (slice_1_m1 stripped)) (snd nc))
  else if str_truthy (current_section st) then
    Ok (OrfixState (new_lines st) (block_lines st ++ [line])
          (current_section st) (all_changes st))
  else
    Ok (OrfixState (new_lines st ++ [line]) (block_lines st)
          (current_section st) (all_changes st)).

Definition process_orfix_sections (t : text) (auto_mode : bool)
    (manual_excludes : gset text) : result (list change * text) :=
  let* st := fold_result (orfix_step auto_mode manual_excludes) (splitlines t)
               (OrfixState [] [] None []) in
  let* nc := flush_block auto_mode manual_excludes st in
  Ok (snd nc, join (fst nc)).

(** ** Combined processing *)

(** [file] is the outcome of reading the file: its text, or [None] when the
    read raised.  Any exception ends in the handler, which returns
    [(False, [], "")]. *)
Definition process_file_combined (file : option text) (auto_mode : bool)
    (manual_excludes : gset text) (process_disabled : bool)
    : bool * list change * text :=
  match file with
  | None => (false, [], [])
  | Some content =>
      if contains (s2l "DISABLED") content && negb process_disabled
      then (false, [], content)
      else
        let secs := split_into_sections content in
        let '(face_changes, text_after_face) :=
          process_face_sections secs auto_mode manual_excludes in
        match process_orfix_sections text_after_face auto_mode manual_excludes with
        | Ok (orfix_changes, final_text) =>
            let all_changes := face_changes ++ map (fun c => c) orfix_changes in
            (nonempty all_changes, all_changes, final_text)
        | Raise _ => (false, [], [])
        end
  end.

(** ** Auxiliary definitions for the statements *)

(** The test of the first pass of [process_orfix_block] on one line. *)
Definition is_slot_line (line : text) : bool :=
  truthy (re_match PS_SLOT_RE (lstrip line)).

(** The test of the second pass of [process_orfix_block] on one line. *)
Definition is_run_line (line : text) : bool :=
  truthy (re_match RUN_LINE_PATTERN line).

(** The value of a computation that did not raise. *)
Definition ok_or {A : Type} (d : A) (r : result A) : A :=
  match r with
  | Ok a => a
  | Raise _ => d
  end.

(** A block of the ORFix scan: its header line and the lines after it. *)
Definition block : Type := text * list text.

(** The name the scan gives the block: the stripped header line without
    its first and last character. *)
Definition block_name (b : block) : option text :=
  Some (slice_1_m1 (strip (fst b))).

Definition block_all_lines (b : block) : list text := fst b :: snd b.

(** What the scan emits for pending lines [blk] under the section name
    [cur], and the changes it records for them. *)
Definition pending_out (auto_mode : bool) (manual_excludes : gset text)
    (cur : option text) (blk : list text) : list text * list change :=
  if nonempty blk && process_block auto_mode manual_excludes cur blk
  then ok_or (blk, []) (process_orfix_block blk cur)
  else (blk, []).

(** What the scan emits for the body of one block, and the changes it
    records for it. *)
Definition block_out (auto_mode : bool) (manual_excludes : gset text)
    (b : block) : list text * list change :=
  pending_out auto_mode manual_excludes (block_name b) (snd b).

(** The scan from a state: the loop over the remaining lines, then the
    processing of the final block. *)
Definition scan_from (auto_mode : bool) (manual_excludes : gset text)
    (lines : list text) (st : orfix_state) : result (list text * list change) :=
  let* st' := fold_result (orfix_step auto_mode manual_excludes) lines st in
  flush_block auto_mode manual_excludes st'.

(** The index the first pass records, counting lines from [off]. *)
Fixpoint last_slot (off : nat) (lines : list text) (acc : option nat) : option nat :=
  match lines with
  | [] => acc
  | x :: xs => last_slot (S off) xs (if is_slot_line x then Some off else acc)
  end.

(** The grouping of section 4.4: the lines before the first block header
    line, then the blocks, each from a header line up to the next one. *)
Fixpoint scan_blocks (lines : list text) : list text * list block :=
  match lines with
  | [] => ([], [])
  | l :: ls =>
      let '(pre, bs) := scan_blocks ls in
      if is_block_header (strip l) then ([], (l, pre) :: bs) else (l :: pre, bs)
  end.

(** The lines the scan emits for a list of blocks, and the changes. *)
Definition blocks_out_lines (auto_mode : bool) (manual_excludes : gset text)
    (bs : list block) : list text :=
  concat (map (fun b => fst b :: fst (block_out auto_mode manual_excludes b)) bs).

Definition blocks_out_changes (auto_mode : bool) (manual_excludes : gset text)
    (bs : list block) : list change :=
  concat (map (fun b => snd (block_out auto_mode manual_excludes b)) bs).

(** A line whose stripped form starts with one of the two prefixes, letter
    for letter. *)
Definition exact_header (line : text) : Prop :=
  exists rest : text,
    strip line = s2l "[CommandList" ++ rest
    \/ strip line = s2l "[TextureOverride" ++ rest.

(** The lines of all sections, in order. *)
Definition section_lines (secs : list section) : list text :=
  concat (map snd secs).

(** The text held by a splitter state: the closed sections, then the open
    one. *)
Definition split_content (st : split_state) : text :=
  join (section_lines (sections st)) ++ join (current_lines st).

(** ** Concrete inputs *)

(** A line: its text and a line feed. *)
Definition ln (s : string) : text := s2l s ++ [LF].

Definition RUN_NN : string := "run = CommandList\global\ORFix\NNFix".
Definition RUN_OR : string := "run = CommandList\global\ORFix\ORFix".

(** A processed block followed by a block with an index-buffer name. *)
Definition ex_excluded_block : block :=
  (ln "[TextureOverrideBodyIB]", [ln "ps-t0 = b"; ln RUN_NN]).

Definition ex_excluded_text : text :=
  ln "[CommandListA]" ++ ln "ps-t0 = a"
  ++ ln "[TextureOverrideBodyIB]" ++ ln "ps-t0 = b" ++ ln RUN_NN.


(** The slot test as the specification words it: [ps-t] and digits,
    without regard to letter case. *)
Definition spec_slot_line (line : text) : bool :=
  truthy (re_match (Pattern true (body PS_SLOT_RE)) (lstrip line)).

(** A block whose last slot assignment is written in upper case. *)
Definition ex_upper_slot_block : list text := [ln "ps-t0 = a"; ln "PS-T1 = b"].

(** Scenario B with a stale directive after the slot lines. *)
Definition ex_scenario_b_pre : list text := [ln "ps-t0 = X"].
Definition ex_scenario_b_last : text := ln "ps-t1 = Y".
Definition ex_scenario_b_post : list text := [ln "; uses NormalMap"; ln RUN_NN].

(** A face section with one slot-0 assignment, with line feeds and with
    carriage return and line feed. *)
Definition ex_face_text : text := ln "[TextureOverrideFace]" ++ ln "ps-t0 = x".
Definition ex_face_text_crlf : text :=
  s2l "[TextureOverrideFace]" ++ [CR; LF] ++ s2l "  ps-t0 = x " ++ [CR; LF].

(** A section still without its directive, and one whose directive stands
    before the slot assignment. *)
Definition ex_fresh_text : text := ln "[CommandListX]" ++ ln "ps-t0 = a".
Definition ex_stale_text : text :=
  ln "[CommandListX]" ++ ln RUN_NN ++ ln "ps-t0 = a".

(** The same, followed by a header that ends the file without a line
    ending. *)
Definition ex_stale_then_header : text :=
  ln "[CommandListX]" ++ ln RUN_NN ++ ln "ps-t0 = a" ++ s2l "[Constants]".

(** The text after one application of the ORFix pass, the text itself if
    the pass raised. *)
Definition orfix_text (t : text) (auto_mode : bool) (manual_excludes : gset text)
    : text :=
  match process_orfix_sections t auto_mode manual_excludes with
  | Ok (_, t') => t'
  | Raise _ => t
  end.

(** ** Auxiliary definitions for the FaceFix pass *)

(** Whether the inner loop rewrites the line [ln]. *)
Definition face_rewrites (allowed : bool) (ln : text) : bool :=
  truthy (if allowed then re_match PS_T0_RE ln else None).

(** The line the inner loop appends to [out_lines] for [ln]. *)
Definition face_out_line (allowed : bool) (ln : text) : text :=
  match (if allowed then re_match PS_T0_RE ln else None) with
  | Some m =>
      group 1 m ++ s2l "this = " ++ group 3 m ++ group 4 m ++ line_ending ln
  | None => ln
  end.

(** The change records of the lines of one section, the lines before
    them being [off] in number. *)
Fixpoint face_changes_from (allowed : bool) (header : option text) (off : nat)
    (lines : list text) : list change :=
  match lines with
  | [] => []
  | ln :: rest =>
      (if face_rewrites allowed ln
       then [FACE header (S off) (rstrip_crlf ln)
               (rstrip_crlf (face_out_line allowed ln))]
       else [])
      ++ face_changes_from allowed header (S off) rest
  end.

Fixpoint face_all_changes (manual_excludes : gset text) (off : nat)
    (secs : list section) : list change :=
  match secs with
  | [] => []
  | sec :: rest =>
      face_changes_from (face_allowed manual_excludes (fst sec) (snd sec))
        (fst sec) off (snd sec)
      ++ face_all_changes manual_excludes (off + length (snd sec)) rest
  end.

Definition face_section_out (manual_excludes : gset text) (sec : section)
    : list text :=
  map (face_out_line (face_allowed manual_excludes (fst sec) (snd sec))) (snd sec).

Definition face_all_out (manual_excludes : gset text) (secs : list section)
    : list text :=
  concat (map (face_section_out manual_excludes) secs).

(** The line number of a FaceFix change record. *)
Definition change_line_no (c : change) : nat :=
  match c with
  | FACE _ n _ _ => n
  | _ => 0
  end.

(** The rewritten form of a line [ln] matched with groups [m]. *)
Definition face_rewrite_of (ln : text) (m : groups) : text :=
  group 1 m ++ s2l "this = " ++ group 3 m ++ group 4 m ++ line_ending ln.

(** A FaceFix record for the line of index [i] (from 0) among [lines]. *)
Definition face_record_at (lines : list text) (c : change) : Prop :=
  exists (h : option text) (i : nat) (ln : text) (m : groups),
    c = FACE h (S i) (rstrip_crlf ln) (rstrip_crlf (face_rewrite_of ln m))
    /\ nth_error lines i = Some ln
    /\ re_match PS_T0_RE ln = Some m.

(** ** Auxiliary definitions for the ORFix pass *)

(** [process_orfix_block] in closed form: the lines that are no run
    lines, with the directive inserted after index [i] when the recorded
    index is below their number and the next line is not the directive
    already. *)
Definition orfix_block_model (blk : list text) (name : option text)
    : list text * list change :=
  let kept := List.filter (fun x => negb (is_run_line x)) blk in
  let removed :=
    map (fun x => ORFIX_REMOVE name (strip x)) (List.filter is_run_line blk) in
  let directive :=
    if existsb (contains (s2l "NormalMap")) blk then ORFIX_RUN else NNFIX_RUN in
  match last_slot 0 blk None with
  | Some i =>
      if (i <? length kept)
         && negb ((i + 1 <? length kept)
                  && text_eqb (strip (nth (i + 1) kept [])) (strip directive))
      then (py_insert (i + 1) directive kept,
            removed ++ [ORFIX_ADD name (strip directive)])
      else (kept, removed)
  | None => (kept, removed)
  end.

Definition is_add (c : change) : bool :=
  match c with
  | ORFIX_ADD _ _ => true
  | _ => false
  end.

Definition is_remove (c : change) : bool :=
  match c with
  | ORFIX_REMOVE _ _ => true
  | _ => false
  end.

(** ** File discovery *)

(** [s.replace('\\', '/')] *)
Definition replace_backslash (s : text) : text :=
  map (fun c => if ascii_eqb c "\" then "/"%char else c) s.

(** [s.strip('*')] *)
Definition strip_stars (s : text) : text :=
  rev (drop_while (fun c => ascii_eqb c "*") (rev (drop_while (fun c => ascii_eqb c "*") s))).

(** The variable [path_norm] of [should_exclude]. *)
Definition path_norm (path : text) : text := str_lower (replace_backslash path).

Definition should_exclude (path : text) (patterns : list text) : bool :=
  existsb (fun pattern => contains (str_lower (strip_stars pattern)) (path_norm path))
    patterns.

(** The groups of the match of [PS_T0_RE] on the line [ps-t0 = x]. *)
Definition ex_slot_line_groups : groups :=
  [(4, [LF]); (3, s2l "x"); (2, s2l "ps-t0"); (1, [])].

(** ** Auxiliary definitions for the Section Splitter *)

(** Whether the splitter takes [line] for a header line. *)
Definition is_section_header (line : text) : bool :=
  truthy (re_match SECTION_HEADER_RE line).

(** The header name the splitter gives a header line. *)
Definition header_name (line : text) : text :=
  match re_match SECTION_HEADER_RE line with
  | Some m => strip (group 1 m)
  | None => []
  end.

(** The grouping of section 4.1: the lines before the first header line,
    then each header line with the lines up to the next one. *)
Fixpoint scan_sections (lines : list text) : list text * list block :=
  match lines with
  | [] => ([], [])
  | l :: ls =>
      let '(pre, bs) := scan_sections ls in
      if is_section_header l then ([], (l, pre) :: bs) else (l :: pre, bs)
  end.

(** The section of a header line and the lines after it. *)
Definition header_section (b : block) : section :=
  (Some (header_name (fst b)), fst b :: snd b).

(** The leading section without header, when there are lines for it. *)
Definition preamble_section (pre : list text) : list section :=
  if nonempty pre then [(None, pre)] else [].

(** What the final test of the splitter appends for the open section. *)
Definition close_section (h : option text) (ls : list text) : list section :=
  if nonempty ls || truthy h then [(h, ls)] else [].

Definition is_face (c : change) : bool :=
  match c with
  | FACE _ _ _ _ => true
  | _ => false
  end.

(** An eligible block whose only slot assignment is written in upper
    case, with its directive; a block whose slot line ends the file
    without a line ending; a block with a stale directive before the slot
    line and a line after it. *)
Definition ex_upper_only_text : text :=
  ln "[CommandListX]" ++ ln "PS-T0 = a" ++ ln RUN_NN.
Definition ex_unterminated_slot_text : text :=
  ln "[CommandListX]" ++ s2l "ps-t0 = a".
Definition ex_stale_middle_text : text :=
  ln "[CommandListX]" ++ ln RUN_NN ++ ln "ps-t0 = a" ++ ln "x = 1".

(** A lower-case header after an exact-case one, with a run line under
    it. *)
Definition ex_lower_header_inside_text : text :=
  ln "[CommandListA]" ++ ln "ps-t0 = a" ++ ln "[commandlistX]" ++ ln RUN_NN
  ++ ln "x = 1".

(** * Properties *)

(** ** Lines *)

Lemma splitlines_cons (c : ascii) (t' : text) :
  splitlines (c :: t') =
    if ascii_eqb c CR then
      match t' with
      | d :: t'' =>
          if ascii_eqb d LF then [c; d] :: splitlines t''
          else [c] :: splitlines t'
      | [] => [[c]]
      end
    else if is_linebreak c then [c] :: splitlines t'
    else match splitlines t' with
         | [] => [[c]]
         | l :: ls => (c :: l) :: ls
         end.
Proof. destruct t'; reflexivity. Qed.

Lemma join_cons (l : text) (ls : list text) : join (l :: ls) = l ++ join ls.
Proof. reflexivity. Qed.

Lemma join_app (xs ys : list text) : join (xs ++ ys) = join xs ++ join ys.
Proof. unfold join. apply concat_app. Qed.

Lemma join_splitlines_bounded (n : nat) :
  forall t : text, length t <= n -> join (splitlines t) = t.
Proof.
  induction n as [|n IH]; intros [|c t'] Hlen; simpl in Hlen; try reflexivity; try lia.
  rewrite splitlines_cons.
  destruct (ascii_eqb c CR).
  - destruct t' as [|d t'']; [reflexivity|].
    destruct (ascii_eqb d LF).
    + rewrite join_cons, IH; [reflexivity | simpl in Hlen; lia].
    + rewrite join_cons, IH; [reflexivity | lia].
  - destruct (is_linebreak c).
    + rewrite join_cons, IH; [reflexivity | lia].
    + assert (E : join (splitlines t') = t') by (apply IH; lia).
      destruct (splitlines t') as [|l ls].
      * simpl in E. subst t'. reflexivity.
      * rewrite join_cons in *. simpl. now rewrite E.
Qed.

(** Joining the lines of a text gives the text back. *)
Lemma join_splitlines (t : text) : join (splitlines t) = t.
Proof. apply (join_splitlines_bounded (length t)). lia. Qed.

(** ** The Section Splitter *)

Lemma section_lines_app (xs ys : list section) :
  section_lines (xs ++ ys) = section_lines xs ++ section_lines ys.
Proof. unfold section_lines. now rewrite map_app, concat_app. Qed.

Lemma split_flush_content (st : split_state) :
  join (section_lines (split_flush st)) = split_content st.
Proof.
  unfold split_flush, split_content.
  destruct (nonempty (current_lines st)) eqn:Hne; simpl.
  - rewrite section_lines_app, join_app. unfold section_lines at 2. simpl.
    now rewrite app_nil_r.
  - destruct (current_lines st); [|discriminate]. simpl.
    destruct (current_header st); simpl.
    + rewrite section_lines_app, join_app. reflexivity.
    + now rewrite app_nil_r.
Qed.

Lemma split_step_content (st : split_state) (line : text) :
  split_content (split_step st line) = split_content st ++ line.
Proof.
  unfold split_step.
  destruct (re_match SECTION_HEADER_RE line).
  - unfold split_content at 1. simpl. rewrite split_flush_content.
    now rewrite app_nil_r.
  - unfold split_content. simpl. rewrite join_app. simpl.
    now rewrite app_nil_r, app_assoc.
Qed.

Lemma split_fold_content (lines : list text) :
  forall st : split_state,
    split_content (fold_left split_step lines st) = split_content st ++ join lines.
Proof.
  induction lines as [|l ls IH]; intros st.
  - simpl. now rewrite app_nil_r.
  - change (fold_left split_step (l :: ls) st)
      with (fold_left split_step ls (split_step st l)).
    rewrite IH, split_step_content, join_cons. now rewrite app_assoc.
Qed.

(** C3. For every text, empty text included, the splitter returns a list
    of sections whose lines, concatenated in order, are the text itself. *)
Theorem split_into_sections_lossless (t : text) :
  join (section_lines (split_into_sections t)) = t.
Proof.
  unfold split_into_sections.
  rewrite split_flush_content, split_fold_content.
  unfold split_content. simpl. apply join_splitlines.
Qed.

(** ** Strings *)

Lemma ascii_eqb_eq (a b : ascii) : ascii_eqb a b = true <-> a = b.
Proof. apply Ascii.eqb_eq. Qed.

Lemma startswith_spec (p : text) :
  forall s : text, startswith p s = true <-> exists r, s = p ++ r.
Proof.
  induction p as [|x p IH]; intros s; simpl.
  - split; [intros _; now exists s | reflexivity].
  - destruct s as [|y s].
    + split; [discriminate | intros [r Hr]; discriminate].
    + rewrite andb_true_iff, ascii_eqb_eq, IH. split.
      * intros [-> [r ->]]. now exists r.
      * intros [r Hr]. injection Hr as -> ->. split; [reflexivity | now exists r].
Qed.

Lemma contains_spec (p : text) :
  forall s : text, contains p s = true <-> exists a b, s = a ++ p ++ b.
Proof.
  induction s as [|c s IH].
  - simpl. rewrite orb_false_r, startswith_spec. split.
    + intros [r Hr]. now exists [], r.
    + intros [a [b Hab]]. destruct a; [now exists b | discriminate].
  - change (contains p (c :: s))
      with (startswith p (c :: s) || contains p s).
    rewrite orb_true_iff, startswith_spec, IH. split.
    + intros [[r Hr] | [a [b Hab]]].
      * now exists [], r.
      * exists (c :: a), b. simpl. now rewrite Hab.
    + intros [[|x a] [b Hab]].
      * left. now exists b.
      * right. injection Hab as -> ->. now exists a, b.
Qed.

(** ** The Combined Driver: disabled files *)

(** C8. When the text of the file contains the marker DISABLED and
    disabled-file processing is off, the driver reports no change, an
    empty change list and the text as it was read. *)
Theorem disabled_file_untouched (content : text) (auto_mode : bool)
    (manual_excludes : gset text) :
  (exists pre post, content = pre ++ s2l "DISABLED" ++ post) ->
  process_file_combined (Some content) auto_mode manual_excludes false
    = (false, [], content).
Proof.
  intros H. apply contains_spec in H.
  unfold process_file_combined. now rewrite H.
Qed.

Lemma disabled_file_untouched_witness :
  process_file_combined (Some (s2l "; DISABLED mod")) true ∅ false
    = (false, [], s2l "; DISABLED mod").
Proof.
  apply (disabled_file_untouched (s2l "; DISABLED mod") true ∅).
  exists (s2l "; "), (s2l " mod"). reflexivity.
Defined.

(** ** The FaceFix pass and the mode *)

(** C9. The FaceFix pass returns the same change list and the same text
    in auto mode and in manual mode, for every list of sections and every
    manual exclusion set. *)
Theorem face_pass_ignores_mode (secs : list section) (manual_excludes : gset text) :
  process_face_sections secs true manual_excludes
    = process_face_sections secs false manual_excludes.
Proof. reflexivity. Qed.

(** ** The two passes of [process_orfix_block] *)

Lemma first_pass_from (blk : list text) :
  forall (nb : list text) (lpi : option nat),
    fold_left first_pass_step blk (nb, lpi)
      = (nb ++ blk, last_slot (length nb) blk lpi).
Proof.
  induction blk as [|x xs IH]; intros nb lpi; simpl.
  - now rewrite app_nil_r.
  - unfold first_pass_step at 2. simpl fst. simpl snd.
    fold (is_slot_line x).
    replace (length (nb ++ [x]) - 1) with (length nb)
      by (rewrite length_app; simpl; lia).
    destruct (is_slot_line x); rewrite IH, length_app, <- app_assoc; simpl;
      now rewrite Nat.add_1_r.
Qed.

Lemma first_pass_eq (blk : list text) :
  first_pass blk = (blk, last_slot 0 blk None).
Proof. unfold first_pass. now rewrite first_pass_from. Qed.

Lemma second_pass_from (name : option text) (l : list text) :
  forall (tb : list text) (ch : list change),
    fold_left (remove_step name) l (tb, ch)
      = (tb ++ List.filter (fun x => negb (is_run_line x)) l,
         ch ++ map (fun x => ORFIX_REMOVE name (strip x)) (List.filter is_run_line l)).
Proof.
  induction l as [|x xs IH]; intros tb ch; simpl.
  - now rewrite !app_nil_r.
  - unfold remove_step at 2. fold (is_run_line x). simpl fst. simpl snd.
    destruct (is_run_line x); simpl; rewrite IH, <- app_assoc; reflexivity.
Qed.

Lemma second_pass_eq (name : option text) (l : list text) :
  second_pass name l
    = (List.filter (fun x => negb (is_run_line x)) l,
       map (fun x => ORFIX_REMOVE name (strip x)) (List.filter is_run_line l)).
Proof. unfold second_pass. now rewrite second_pass_from. Qed.

Lemma py_index_in_range {A : Type} (l : list A) (i : nat) :
  i < length l -> exists x, py_index l i = Ok x.
Proof.
  intros Hi. unfold py_index.
  destruct (nth_error l i) as [x|] eqn:E.
  - now exists x.
  - apply nth_error_None in E. lia.
Qed.

(** The shape of every result of [process_orfix_block]: it is a value,
    and its lines are the lines left by the second pass, with at most one
    line inserted, and then only at a recorded index below their number. *)
Lemma process_orfix_block_shape (blk : list text) (name : option text) :
  exists (out : list text) (changes : list change),
    process_orfix_block blk name = Ok (out, changes)
    /\ let post := fst (second_pass name (fst (first_pass blk))) in
       (out = post
        \/ exists (i : nat) (run : text),
             snd (first_pass blk) = Some i
             /\ i < length post
             /\ out = py_insert (i + 1) run post).
Proof.
  unfold process_orfix_block.
  destruct blk as [|x xs].
  - simpl. exists [], []. split; [reflexivity | left; reflexivity].
  - cbn [nonempty negb].
    destruct (first_pass (x :: xs)) as [nb0 lpi] eqn:E1. cbn [fst snd].
    destruct (second_pass name nb0) as [nb ch] eqn:E2.
    cbn [fst snd]. destruct lpi as [i|].
    + destruct (i <? length nb) eqn:Hi.
      * apply Nat.ltb_lt in Hi.
        destruct (i + 1 <? length nb) eqn:Hn.
        -- apply Nat.ltb_lt in Hn.
           destruct (py_index_in_range nb (i + 1) Hn) as [next Hnext].
           rewrite Hnext. cbn [bind].
           destruct (negb _); eexists; eexists; (split; [reflexivity|]).
           ++ right. exists i. eexists.
              split; [reflexivity | split; [exact Hi | reflexivity]].
           ++ left. reflexivity.
        -- cbn [bind negb]. eexists; eexists; (split; [reflexivity|]).
           right. exists i. eexists.
           split; [reflexivity | split; [exact Hi | reflexivity]].
      * eexists; eexists; (split; [reflexivity | left; reflexivity]).
    + eexists; eexists; (split; [reflexivity | left; reflexivity]).
Qed.

Lemma process_orfix_block_ok (blk : list text) (name : option text) :
  exists r, process_orfix_block blk name = Ok r.
Proof.
  destruct (process_orfix_block_shape blk name) as (out & ch & H & _).
  now exists (out, ch).
Qed.

(** C10. [process_orfix_block] returns a value for every block and never
    raises: an insertion happens only at an index recorded by the first
    pass that is strictly below the number of lines left after the
    removals. *)
Theorem process_orfix_block_never_raises (blk : list text) (name : option text) :
  exists (out : list text) (changes : list change),
    process_orfix_block blk name = Ok (out, changes)
    /\ let post := fst (second_pass name (fst (first_pass blk))) in
       (out = post
        \/ exists (i : nat) (run : text),
             snd (first_pass blk) = Some i
             /\ i < length post
             /\ out = py_insert (i + 1) run post).
Proof. exact (process_orfix_block_shape blk name). Qed.

(** ** The ORFix scan as a map over blocks *)

Lemma is_block_header_exact (line : text) :
  is_block_header (strip line) = true <-> exact_header line.
Proof.
  unfold is_block_header, exact_header.
  rewrite orb_true_iff, !startswith_spec. split.
  - intros [[r Hr] | [r Hr]]; exists r; [left | right]; exact Hr.
  - intros [r [Hr | Hr]]; [left | right]; exists r; exact Hr.
Qed.

Lemma block_name_truthy (line : text) :
  is_block_header (strip line) = true ->
  str_truthy (Some (slice_1_m1 (strip line))) = true.
Proof.
  intros H. apply is_block_header_exact in H.
  destruct H as [r [-> | ->]]; reflexivity.
Qed.

Section Scan.
Variable auto_mode : bool.
Variable manual_excludes : gset text.

Lemma flush_block_eq (nl blk : list text) (cs : option text) (ch : list change) :
  flush_block auto_mode manual_excludes (OrfixState nl blk cs ch)
    = Ok (nl ++ fst (pending_out auto_mode manual_excludes cs blk),
          ch ++ snd (pending_out auto_mode manual_excludes cs blk)).
Proof.
  unfold flush_block, pending_out. cbn [block_lines new_lines all_changes current_section].
  destruct (nonempty blk) eqn:Hne; cbn [andb].
  - destruct (process_block auto_mode manual_excludes cs blk).
    + destruct (process_orfix_block_ok blk cs) as [r ->]. reflexivity.
    + cbn [fst snd]. now rewrite app_nil_r.
  - destruct blk; [|discriminate]. cbn [fst snd]. now rewrite !app_nil_r.
Qed.

Lemma blocks_out_lines_cons (b : block) (bs : list block) :
  blocks_out_lines auto_mode manual_excludes (b :: bs)
    = fst b :: fst (block_out auto_mode manual_excludes b)
      ++ blocks_out_lines auto_mode manual_excludes bs.
Proof. reflexivity. Qed.

Lemma blocks_out_changes_cons (b : block) (bs : list block) :
  blocks_out_changes auto_mode manual_excludes (b :: bs)
    = snd (block_out auto_mode manual_excludes b)
      ++ blocks_out_changes auto_mode manual_excludes bs.
Proof. reflexivity. Qed.

(** The loop invariant, read forwards: from a state that is inside a
    block the pending lines are completed by the lines up to the next
    header; from a state before the first header the lines are copied. *)
Lemma scan_from_spec (lines : list text) :
  forall (nl blk : list text) (cs : option text) (ch : list change),
    str_truthy cs = true \/ blk = [] ->
    scan_from auto_mode manual_excludes lines (OrfixState nl blk cs ch)
      = let '(pre, bs) := scan_blocks lines in
        if str_truthy cs
        then Ok (nl ++ fst (pending_out auto_mode manual_excludes cs (blk ++ pre))
                    ++ blocks_out_lines auto_mode manual_excludes bs,
                 ch ++ snd (pending_out auto_mode manual_excludes cs (blk ++ pre))
                    ++ blocks_out_changes auto_mode manual_excludes bs)
        else Ok (nl ++ pre ++ blocks_out_lines auto_mode manual_excludes bs,
                 ch ++ blocks_out_changes auto_mode manual_excludes bs).
Proof.
  induction lines as [|l ls IH]; intros nl blk cs ch Hst.
  - unfold scan_from. cbn [fold_result bind scan_blocks].
    rewrite flush_block_eq.
    destruct (str_truthy cs) eqn:Hcs.
    + now rewrite !app_nil_r.
    + destruct Hst as [Hst | ->]; [discriminate|].
      reflexivity.
  - unfold scan_from in *. cbn [fold_result scan_blocks].
    destruct (scan_blocks ls) as [pre bs] eqn:Hscan.
    unfold orfix_step at 1.
    cbn [block_lines new_lines all_changes current_section].
    destruct (is_block_header (strip l)) eqn:Hh.
    + rewrite flush_block_eq. cbn [bind fst snd].
      rewrite IH by (left; now apply block_name_truthy).
      rewrite (block_name_truthy l Hh). cbn [app].
      rewrite blocks_out_lines_cons, blocks_out_changes_cons.
      unfold block_out, block_name. cbn [fst snd].
      destruct (str_truthy cs) eqn:Hcs.
      * rewrite app_nil_r. f_equal. f_equal.
        -- now rewrite <- !app_assoc.
        -- now rewrite <- !app_assoc.
      * destruct Hst as [Hst | ->]; [discriminate|].
        unfold pending_out at 1 2. cbn [nonempty andb fst snd].
        rewrite !app_nil_r. f_equal. f_equal.
        now rewrite <- !app_assoc.
    + destruct (str_truthy cs) eqn:Hcs; cbn [bind].
      * rewrite IH by (now left). rewrite Hcs.
        now rewrite <- !app_assoc.
      * destruct Hst as [Hst | ->]; [discriminate|].
        rewrite IH by (now right). rewrite Hcs.
        now rewrite <- !app_assoc.
Qed.

(** The ORFix pass copies the lines before the first block header and
    emits, for each block in order, the header line and the block's
    output. *)
Lemma process_orfix_sections_blocks (t : text) :
  process_orfix_sections t auto_mode manual_excludes
    = let '(pre, bs) := scan_blocks (splitlines t) in
      Ok (blocks_out_changes auto_mode manual_excludes bs,
          join (pre ++ blocks_out_lines auto_mode manual_excludes bs)).
Proof.
  assert (E : process_orfix_sections t auto_mode manual_excludes
              = let* nc := scan_from auto_mode manual_excludes (splitlines t)
                             (OrfixState [] [] None []) in
                Ok (snd nc, join (fst nc))).
  { unfold process_orfix_sections, scan_from.
    destruct (fold_result _ _ _); reflexivity. }
  rewrite E, scan_from_spec by (now right).
  destruct (scan_blocks (splitlines t)) as [pre bs]. reflexivity.
Qed.
End Scan.

(** ** The grouping into blocks *)

Lemma scan_blocks_cons (l : text) (ls : list text) :
  scan_blocks (l :: ls)
    = let '(pre, bs) := scan_blocks ls in
      if is_block_header (strip l) then ([], (l, pre) :: bs) else (l :: pre, bs).
Proof. reflexivity. Qed.

(** [scan_blocks] cuts the lines at the header lines and nowhere else. *)
Lemma scan_blocks_partition (lines : list text) :
  forall (pre : list text) (bs : list block),
    scan_blocks lines = (pre, bs) ->
    lines = pre ++ concat (map block_all_lines bs)
    /\ Forall (fun l => ~ exact_header l) pre
    /\ Forall (fun b => exact_header (fst b)
                        /\ Forall (fun l => ~ exact_header l) (snd b)) bs.
Proof.
  induction lines as [|l ls IH]; intros pre bs Hscan.
  - injection Hscan as <- <-. repeat split; constructor.
  - rewrite scan_blocks_cons in Hscan.
    destruct (scan_blocks ls) as [pre' bs'].
    destruct (IH pre' bs' eq_refl) as (Hls & Hpre & Hbs).
    destruct (is_block_header (strip l)) eqn:Hh; injection Hscan as <- <-.
    + apply is_block_header_exact in Hh. repeat split.
      * cbn [map concat block_all_lines fst snd app]. now rewrite <- Hls.
      * constructor.
      * constructor; [split; assumption | assumption].
    + repeat split.
      * now rewrite <- app_comm_cons, <- Hls.
      * constructor; [|assumption].
        intros He. apply is_block_header_exact in He. congruence.
      * assumption.
Qed.

Lemma blocks_out_lines_app (auto_mode : bool) (manual_excludes : gset text)
    (xs ys : list block) :
  blocks_out_lines auto_mode manual_excludes (xs ++ ys)
    = blocks_out_lines auto_mode manual_excludes xs
      ++ blocks_out_lines auto_mode manual_excludes ys.
Proof. unfold blocks_out_lines. now rewrite map_app, concat_app. Qed.

Lemma blocks_out_changes_app (auto_mode : bool) (manual_excludes : gset text)
    (xs ys : list block) :
  blocks_out_changes auto_mode manual_excludes (xs ++ ys)
    = blocks_out_changes auto_mode manual_excludes xs
      ++ blocks_out_changes auto_mode manual_excludes ys.
Proof. unfold blocks_out_changes. now rewrite map_app, concat_app. Qed.

(** A block that is not to be processed comes out as it is. *)
Lemma pending_out_skipped (auto_mode : bool) (manual_excludes : gset text)
    (cur : option text) (blk : list text) :
  process_block auto_mode manual_excludes cur blk = false ->
  pending_out auto_mode manual_excludes cur blk = (blk, []).
Proof. intros H. unfold pending_out. rewrite H. now rewrite andb_false_r. Qed.

Lemma process_block_auto_excluded (auto_mode : bool) (manual_excludes : gset text)
    (cur : option text) (blk : list text) :
  should_auto_exclude_section cur = true ->
  process_block auto_mode manual_excludes cur blk = false.
Proof. intros H. unfold process_block. rewrite H. now destruct auto_mode. Qed.

(** C5. In the output of the ORFix pass, a block whose bracketed name
    matches a structural auto-exclusion pattern stands with its header
    line and its lines unchanged, between the outputs of the blocks
    before and after it, and no change is recorded for it, whatever the
    mode and the manual exclusion set. *)
Theorem orfix_auto_excluded_block_unchanged (t : text) (auto_mode : bool)
    (manual_excludes : gset text) (pre : list text) (bs1 bs2 : list block)
    (b : block) :
  scan_blocks (splitlines t) = (pre, bs1 ++ b :: bs2) ->
  (exists pat, In pat AUTO_EXCLUDE_PATTERNS
               /\ truthy (re_match pat (bracket (block_name b))) = true) ->
  process_orfix_sections t auto_mode manual_excludes
    = Ok (blocks_out_changes auto_mode manual_excludes bs1
            ++ blocks_out_changes auto_mode manual_excludes bs2,
          join (pre ++ blocks_out_lines auto_mode manual_excludes bs1
                    ++ block_all_lines b
                    ++ blocks_out_lines auto_mode manual_excludes bs2)).
Proof.
  intros Hscan Hpat.
  rewrite process_orfix_sections_blocks, Hscan.
  destruct (scan_blocks_partition _ _ _ Hscan) as (_ & _ & Hbs).
  apply Forall_app in Hbs. destruct Hbs as [_ Hb].
  apply Forall_cons_iff in Hb. destruct Hb as [[Hhdr _] _].
  assert (Hex : should_auto_exclude_section (block_name b) = true).
  { unfold should_auto_exclude_section, block_name.
    rewrite block_name_truthy by (now apply is_block_header_exact).
    cbn [negb]. apply existsb_exists. exact Hpat. }
  assert (Hout : block_out auto_mode manual_excludes b = (snd b, [])).
  { unfold block_out. apply pending_out_skipped.
    now apply process_block_auto_excluded. }
  rewrite blocks_out_changes_app, blocks_out_lines_app.
  unfold blocks_out_changes at 2. unfold blocks_out_lines at 2.
  cbn [map concat]. rewrite Hout. cbn [fst snd app].
  fold (blocks_out_changes auto_mode manual_excludes bs2).
  fold (blocks_out_lines auto_mode manual_excludes bs2).
  reflexivity.
Qed.

Lemma orfix_auto_excluded_block_unchanged_witness :
  process_orfix_sections ex_excluded_text true ∅
    = Ok ([ORFIX_ADD (Some (s2l "CommandListA")) (s2l RUN_NN)],
          ln "[CommandListA]" ++ ln "ps-t0 = a" ++ ln RUN_NN
          ++ ln "[TextureOverrideBodyIB]" ++ ln "ps-t0 = b" ++ ln RUN_NN).
Proof.
  apply (orfix_auto_excluded_block_unchanged ex_excluded_text true ∅ []
           [(ln "[CommandListA]", [ln "ps-t0 = a"])] [] ex_excluded_block).
  - vm_compute. reflexivity.
  - exists (Pattern true (rseq [RBol; RStr "["; RStar CAny; RStr "IB"; RStr "]"; REol])).
    split; [left; reflexivity | vm_compute; reflexivity].
Defined.

(** ** Which lines open a block *)



(** A header in lower case inside the block of an exact-case header is a
    line of that block: the run line under it is removed with the block's
    other run lines, and the directive is inserted after the block's slot
    line. *)
Example lower_case_header_inside_block :
  process_orfix_sections ex_lower_header_inside_text false ∅
    = Ok ([ORFIX_REMOVE (Some (s2l "CommandListA")) (s2l RUN_NN);
           ORFIX_ADD (Some (s2l "CommandListA")) (s2l RUN_NN)],
          ln "[CommandListA]" ++ ln "ps-t0 = a" ++ ln RUN_NN
          ++ ln "[commandlistX]" ++ ln "x = 1").
Proof. vm_compute. reflexivity. Qed.

(** A text without any exact-case header line goes through the ORFix pass
    unchanged. *)
Lemma orfix_no_header_no_change (t : text) (auto_mode : bool)
    (manual_excludes : gset text) :
  Forall (fun l => ~ exact_header l) (splitlines t) ->
  process_orfix_sections t auto_mode manual_excludes = Ok ([], t).
Proof.
  intros Hno.
  rewrite process_orfix_sections_blocks.
  destruct (scan_blocks (splitlines t)) as [pre bs] eqn:Hscan.
  destruct (scan_blocks_partition _ _ _ Hscan) as (Hls & _ & Hbs).
  destruct bs as [|b bs].
  - cbn in Hls. rewrite app_nil_r in Hls. subst pre.
    cbn. now rewrite app_nil_r, join_splitlines.
  - exfalso. apply Forall_cons_iff in Hbs. destruct Hbs as [[Hb _] _].
    rewrite Hls in Hno. apply Forall_app in Hno. destruct Hno as [_ Hno].
    cbn in Hno. apply Forall_cons_iff in Hno. now destruct Hno.
Qed.

(** ** Slot lines and run lines *)

Lemma star_greedy_split (f : ascii -> bool) (k : text -> option groups)
    (g : groups) :
  forall s : text,
    star_greedy f s k = Some g ->
    exists ws s', s = ws ++ s' /\ Forall (fun c => f c = true) ws /\ k s' = Some g.
Proof.
  induction s as [|c s IH]; intros H.
  - exists [], []. repeat split; [constructor | exact H].
  - cbn [star_greedy] in H. destruct (f c) eqn:Hc.
    + destruct (star_greedy f s k) as [g'|] eqn:Hs.
      * injection H as ->. destruct (IH eq_refl) as (ws & s' & -> & Hws & Hk).
        exists (c :: ws), s'. repeat split; [constructor; assumption | exact Hk].
      * exists [], (c :: s). repeat split; [constructor | exact H].
    + exists [], (c :: s). repeat split; [constructor | exact H].
Qed.

Lemma lstrip_spaces_app (ws s : text) :
  Forall (fun c => isspace c = true) ws -> lstrip (ws ++ s) = lstrip s.
Proof.
  induction 1 as [|c ws Hc _ IH]; [reflexivity|].
  unfold lstrip in *. cbn [app drop_while]. now rewrite Hc.
Qed.

(** No character that matches the letter r without regard to case is
    white space. *)
Lemma letter_r_not_space (c : ascii) :
  char_eq true "r" c = true -> isspace c = false.
Proof.
  destruct c as [[] [] [] [] [] [] [] []]; intros H;
    first [reflexivity | vm_compute in H; discriminate H].
Qed.

(** A run line starts, after white space, with the letter r. *)
Lemma run_line_first_letter (line : text) :
  is_run_line line = true ->
  exists c r, lstrip line = c :: r /\ char_eq true "r" c = true.
Proof.
  unfold is_run_line, re_match, RUN_LINE_PATTERN.
  cbn [body ignorecase rseq fold_right rmatch cset_mem].
  destruct (star_greedy _ _ _) as [g|] eqn:Hs; [intros _ | discriminate].
  apply star_greedy_split in Hs. destruct Hs as (ws & s' & -> & Hws & Hk).
  rewrite lstrip_spaces_app by exact Hws.
  destruct s' as [|c r]; [discriminate Hk|].
  cbn [s2l list_ascii_of_string lit] in Hk.
  destruct (char_eq true "r" c) eqn:Hc; [|discriminate Hk].
  exists c, r. split; [|exact Hc].
  unfold lstrip. cbn [drop_while]. now rewrite (letter_r_not_space c Hc).
Qed.

(** A slot line starts, after white space, with the letter p in lower
    case. *)
Lemma slot_line_first_letter (line : text) :
  is_slot_line line = true -> exists r, lstrip line = "p"%char :: r.
Proof.
  unfold is_slot_line, re_match, PS_SLOT_RE.
  cbn [body ignorecase rseq fold_right rmatch].
  destruct (lstrip line) as [|c r]; [discriminate|].
  cbn [s2l list_ascii_of_string lit]. unfold char_eq at 1.
  destruct (ascii_eqb c "p") eqn:Hc; [intros _ | discriminate].
  apply ascii_eqb_eq in Hc. subst c. now exists r.
Qed.

Lemma slot_line_not_run_line (line : text) :
  is_slot_line line = true -> is_run_line line = false.
Proof.
  intros Hs. destruct (is_run_line line) eqn:Hr; [|reflexivity].
  apply slot_line_first_letter in Hs. destruct Hs as [r Hp].
  apply run_line_first_letter in Hr. destruct Hr as (c & r' & Hc & Hch).
  rewrite Hp in Hc. injection Hc as <- _. discriminate Hch.
Qed.

Lemma star_greedy_total (f : ascii -> bool) (k : text -> option groups) :
  (forall s', truthy (k s') = true) ->
  forall s, truthy (star_greedy f s k) = true.
Proof.
  intros Hk. induction s as [|c s IH]; cbn [star_greedy]; [apply Hk|].
  destruct (f c); [|apply Hk].
  destruct (star_greedy f s k); [reflexivity | discriminate IH].
Qed.

(** The first pass takes a line for a slot line exactly when its
    left-stripped form starts with [ps-t] in lower case and a digit. *)
Lemma is_slot_line_spec (line : text) :
  is_slot_line line = true
  <-> exists (d : ascii) (rest : text),
        lstrip line = s2l "ps-t" ++ d :: rest /\ isdigit d = true.
Proof.
  unfold is_slot_line, re_match, PS_SLOT_RE.
  cbn [body ignorecase rseq fold_right rmatch cset_mem].
  split.
  - destruct (lstrip line) as [|c1 [|c2 [|c3 [|c4 [|d rest]]]]];
      cbn [s2l list_ascii_of_string lit]; unfold char_eq;
      repeat match goal with
             | |- context [ascii_eqb ?a ?b] =>
                 let E := fresh "E" in
                 destruct (ascii_eqb a b) eqn:E;
                 [apply ascii_eqb_eq in E; subst a | discriminate]
             end; try discriminate.
    destruct (isdigit d) eqn:Hd; [intros _ | discriminate].
    exists d, rest. split; [reflexivity | exact Hd].
  - intros (d & rest & -> & Hd).
    cbn [s2l list_ascii_of_string app lit]. unfold char_eq.
    cbn. rewrite Hd. apply star_greedy_total. reflexivity.
Qed.

Lemma last_slot_app (xs ys : list text) :
  forall (off : nat) (acc : option nat),
    last_slot off (xs ++ ys) acc
      = last_slot (off + length xs) ys (last_slot off xs acc).
Proof.
  induction xs as [|x xs IH]; intros off acc; cbn [app last_slot length].
  - now rewrite Nat.add_0_r.
  - rewrite IH. now rewrite Nat.add_succ_comm.
Qed.

Lemma last_slot_none (ys : list text) :
  Forall (fun x => is_slot_line x = false) ys ->
  forall (off : nat) (acc : option nat), last_slot off ys acc = acc.
Proof.
  induction 1 as [|y ys Hy _ IH]; intros off acc; cbn [last_slot]; [reflexivity|].
  now rewrite Hy, IH.
Qed.

Lemma filter_keeps_all (xs : list text) :
  Forall (fun x => is_run_line x = false) xs ->
  List.filter (fun x => negb (is_run_line x)) xs = xs
  /\ List.filter is_run_line xs = [].
Proof.
  induction 1 as [|x xs Hx _ [IH1 IH2]]; [split; reflexivity|].
  cbn [List.filter]. rewrite Hx. cbn [negb]. now rewrite IH1, IH2.
Qed.

Lemma py_insert_after {A : Type} (xs : list A) (y x : A) (ys : list A) :
  py_insert (length xs + 1) x (xs ++ y :: ys) = xs ++ y :: x :: ys.
Proof.
  unfold py_insert. induction xs as [|a xs IH]; [reflexivity|].
  cbn [length Nat.add app firstn skipn]. now rewrite IH.
Qed.

Lemma nth_error_after {A : Type} (xs : list A) (y z : A) (zs : list A) :
  nth_error (xs ++ y :: z :: zs) (length xs + 1) = Some z.
Proof. induction xs as [|a xs IH]; [reflexivity | exact IH]. Qed.

Lemma nonempty_app_cons {A : Type} (xs : list A) (y : A) (ys : list A) :
  nonempty (xs ++ y :: ys) = true.
Proof. destruct xs; reflexivity. Qed.

(** The lists [process_orfix_block] returns for a block whose last slot
    line (left-stripped form starting with [ps-t] in lower case and a
    digit) has no run line before it: every run line is removed and
    recorded; the directive is the ORFix one when a line of the block
    contains NormalMap and the NNFix one otherwise; and it is the list
    entry after the last slot line, unless the entry that follows it
    after the removals has the same trimmed text. *)
Theorem orfix_block_directive_after_last_slot (pre post : list text)
    (l : text) (name : option text) :
  (exists (d : ascii) (rest : text),
     lstrip l = s2l "ps-t" ++ d :: rest /\ isdigit d = true) ->
  Forall (fun x => is_slot_line x = false) post ->
  Forall (fun x => is_run_line x = false) pre ->
  let blk := pre ++ l :: post in
  let kept := List.filter (fun x => negb (is_run_line x)) post in
  let removed := List.filter is_run_line post in
  let directive :=
    if existsb (contains (s2l "NormalMap")) blk then ORFIX_RUN else NNFIX_RUN in
  let present :=
    match kept with
    | next :: _ => text_eqb (strip next) (strip directive)
    | [] => false
    end in
  process_orfix_block blk name
    = Ok (pre ++ l :: (if present then kept else directive :: kept),
          map (fun x => ORFIX_REMOVE name (strip x)) removed
          ++ (if present then [] else [ORFIX_ADD name (strip directive)])).
Proof.
  intros Hl Hpost Hpre blk kept removed directive present.
  apply is_slot_line_spec in Hl.
  pose proof (slot_line_not_run_line l Hl) as Hlr.
  destruct (filter_keeps_all pre Hpre) as [Hk Hr].
  unfold process_orfix_block.
  fold blk. unfold blk at 1. rewrite nonempty_app_cons. cbn [negb].
  rewrite first_pass_eq. rewrite second_pass_eq.
  assert (Hlast : last_slot 0 blk None = Some (length pre)).
  { unfold blk. rewrite last_slot_app. cbn [last_slot Nat.add].
    rewrite Hl. now rewrite last_slot_none. }
  assert (Hkept : List.filter (fun x => negb (is_run_line x)) blk = pre ++ l :: kept).
  { unfold blk. rewrite List.filter_app, Hk. cbn [List.filter].
    now rewrite Hlr. }
  assert (Hrem : List.filter is_run_line blk = removed).
  { unfold blk. rewrite List.filter_app, Hr. cbn [List.filter app].
    now rewrite Hlr. }
  rewrite Hlast, Hkept, Hrem. fold directive.
  replace (length pre <? length (pre ++ l :: kept)) with true
    by (symmetry; apply Nat.ltb_lt; rewrite length_app; simpl; lia).
  destruct kept as [|next kept'] eqn:Ekept.
  - replace (length pre + 1 <? length (pre ++ [l])) with false
      by (symmetry; apply Nat.ltb_ge; rewrite length_app; simpl; lia).
    cbn [bind negb]. subst present. now rewrite py_insert_after.
  - replace (length pre + 1 <? length (pre ++ l :: next :: kept')) with true
      by (symmetry; apply Nat.ltb_lt; rewrite length_app; simpl; lia).
    unfold py_index. rewrite nth_error_after. cbn [bind].
    subst present. destruct (text_eqb (strip next) (strip directive)); cbn [negb].
    + now rewrite app_nil_r.
    + now rewrite py_insert_after.
Qed.

Lemma orfix_block_directive_after_last_slot_witness :
  process_orfix_block
    (ex_scenario_b_pre ++ ex_scenario_b_last :: ex_scenario_b_post)
    (Some (s2l "CommandListBody"))
  = Ok ([ln "ps-t0 = X"; ln "ps-t1 = Y"; ORFIX_RUN; ln "; uses NormalMap"],
        [ORFIX_REMOVE (Some (s2l "CommandListBody")) (s2l RUN_NN);
         ORFIX_ADD (Some (s2l "CommandListBody")) (s2l RUN_OR)]).
Proof.
  apply (orfix_block_directive_after_last_slot ex_scenario_b_pre
           ex_scenario_b_post ex_scenario_b_last (Some (s2l "CommandListBody"))).
  - exists "1"%char, (ln " = Y"). split; vm_compute; reflexivity.
  - repeat constructor.
  - repeat constructor.
Defined.

(** The slot test of the first pass is case-sensitive.  The last slot
    line in the specification's sense is the second line of this block,
    the pass inserts the directive after the first. *)
Lemma upper_case_slot_line_not_found :
  spec_slot_line (ln "PS-T1 = b") = true
  /\ existsb is_run_line ex_upper_slot_block = false
  /\ process_orfix_block ex_upper_slot_block (Some (s2l "CommandListX"))
     = Ok ([ln "ps-t0 = a"; NNFIX_RUN; ln "PS-T1 = b"],
           [ORFIX_ADD (Some (s2l "CommandListX")) (s2l RUN_NN)])
  /\ process_orfix_block ex_upper_slot_block (Some (s2l "CommandListX"))
     <> Ok ([ln "ps-t0 = a"; ln "PS-T1 = b"; NNFIX_RUN],
            [ORFIX_ADD (Some (s2l "CommandListX")) (s2l RUN_NN)]).
Proof. vm_compute. repeat split. discriminate. Qed.

(** ** Behaviour at the inputs on which the code departs from the
    specification *)

(** C4. The code does not place the directive as the claim says.  The
    slot test of the first pass has no [re.IGNORECASE], unlike the
    eligibility test of the scan: with an upper-case last slot line the
    directive goes after an earlier line, and an eligible block whose
    only slot line is in upper case loses its directive and gets none.
    The directive is a list entry after the slot line: after a slot line
    without line ending it is no new line but the end of that line.  And
    with a run line before the slot line the index recorded before the
    removals puts the directive one line too far. *)
Theorem orfix_directive_misplaced :
  spec_slot_line (ln "PS-T1 = b") = true
  /\ process_orfix_block ex_upper_slot_block (Some (s2l "CommandListX"))
     = Ok ([ln "ps-t0 = a"; NNFIX_RUN; ln "PS-T1 = b"],
           [ORFIX_ADD (Some (s2l "CommandListX")) (s2l RUN_NN)])
  /\ process_orfix_sections ex_upper_only_text false ∅
     = Ok ([ORFIX_REMOVE (Some (s2l "CommandListX")) (s2l RUN_NN)],
           ln "[CommandListX]" ++ ln "PS-T0 = a")
  /\ process_orfix_sections ex_unterminated_slot_text false ∅
     = Ok ([ORFIX_ADD (Some (s2l "CommandListX")) (s2l RUN_NN)],
           ln "[CommandListX]"
           ++ s2l "ps-t0 = arun = CommandList\global\ORFix\NNFix" ++ [LF])
  /\ process_orfix_sections ex_stale_middle_text false ∅
     = Ok ([ORFIX_REMOVE (Some (s2l "CommandListX")) (s2l RUN_NN);
            ORFIX_ADD (Some (s2l "CommandListX")) (s2l RUN_NN)],
           ln "[CommandListX]" ++ ln "ps-t0 = a" ++ ln "x = 1" ++ ln RUN_NN).
Proof. vm_compute. repeat split. Qed.

(** C1. On a face section whose slot-0 line ends in a line feed, the
    FaceFix pass writes the line ending twice: group 4 of [PS_T0_RE]
    already holds the ending and [newline] is appended after it.  The
    output text has one line more than the input; the same happens with
    carriage return and line feed. *)
Theorem face_rewrite_doubles_line_ending :
  process_face_sections (split_into_sections ex_face_text) false ∅
    = ([FACE (Some (s2l "TextureOverrideFace")) 2 (s2l "ps-t0 = x") (s2l "this = x")],
       ln "[TextureOverrideFace]" ++ ln "this = x" ++ [LF])
  /\ length (splitlines ex_face_text) = 2
  /\ length (splitlines (snd (process_face_sections
                                (split_into_sections ex_face_text) false ∅))) = 3
  /\ snd (process_face_sections (split_into_sections ex_face_text_crlf) false ∅)
     = s2l "[TextureOverrideFace]" ++ [CR; LF]
       ++ s2l "  this = x " ++ [CR; LF] ++ [CR; LF].
Proof. vm_compute. repeat split. Qed.

(** C2. A second application of the ORFix pass removes the directive the
    first one inserted and inserts it again, so its change list is not
    empty; and when the directive stood before the slot line, the first
    application drops it and only the second one inserts it, so the two
    texts differ. *)
Theorem orfix_second_application_changes :
  process_orfix_sections ex_fresh_text false ∅
    = Ok ([ORFIX_ADD (Some (s2l "CommandListX")) (s2l RUN_NN)],
          ex_fresh_text ++ ln RUN_NN)
  /\ process_orfix_sections (orfix_text ex_fresh_text false ∅) false ∅
     = Ok ([ORFIX_REMOVE (Some (s2l "CommandListX")) (s2l RUN_NN);
            ORFIX_ADD (Some (s2l "CommandListX")) (s2l RUN_NN)],
           ex_fresh_text ++ ln RUN_NN)
  /\ process_orfix_sections ex_stale_text false ∅
     = Ok ([ORFIX_REMOVE (Some (s2l "CommandListX")) (s2l RUN_NN)],
           ex_fresh_text)
  /\ orfix_text (orfix_text ex_stale_text false ∅) false ∅
     <> orfix_text ex_stale_text false ∅.
Proof. vm_compute. repeat split. discriminate. Qed.

(** C7. The index recorded before the removals is used after them: here
    the directive is appended to the last line of the file, a header
    without a line ending, which then is no header any more.  The input
    splits into two sections, the output of the driver into one. *)
Theorem driver_can_lose_a_section :
  process_file_combined (Some ex_stale_then_header) false ∅ false
    = (true,
       [ORFIX_REMOVE (Some (s2l "CommandListX")) (s2l RUN_NN);
        ORFIX_ADD (Some (s2l "CommandListX")) (s2l RUN_NN)],
       ln "[CommandListX]" ++ ln "ps-t0 = a" ++ s2l "[Constants]" ++ ln RUN_NN)
  /\ length (split_into_sections ex_stale_then_header) = 2
  /\ length (split_into_sections
               (snd (process_file_combined (Some ex_stale_then_header) false ∅ false)))
     = 1.
Proof. vm_compute. repeat split. Qed.

(** ** Scenarios of the specification *)

(** Scenario D: a section with an excluded name is left alone. *)
Example scenario_d :
  process_orfix_sections (ln "[CommandListLoadA2]" ++ ln "ps-t0 = a") false ∅
    = Ok ([], ln "[CommandListLoadA2]" ++ ln "ps-t0 = a").
Proof. vm_compute. reflexivity. Qed.

(** Scenario E: in auto mode a limb section gets no ORFix change, and the
    FaceFix pass still rewrites it when it runs a face command list. *)
Example scenario_e :
  process_orfix_sections (ln "[TextureOverrideLimbArmor]" ++ ln "ps-t0 = a") true ∅
    = Ok ([], ln "[TextureOverrideLimbArmor]" ++ ln "ps-t0 = a")
  /\ fst (process_face_sections
            (split_into_sections
               (ln "[TextureOverrideLimbArmor]" ++ ln "run = CommandListFaceFix"
                ++ s2l "ps-t0 = a")) true ∅)
     = [FACE (Some (s2l "TextureOverrideLimbArmor")) 3 (s2l "ps-t0 = a")
          (s2l "this = a")].
Proof. vm_compute. split; reflexivity. Qed.

(** The index access of the model does raise out of range. *)
Example py_index_out_of_range : py_index [ln "a"] 1 = Raise IndexError.
Proof. reflexivity. Qed.

(** * Further properties of the code *)

(** ** The FaceFix pass, line by line *)

Lemma face_line_eq (allowed : bool) (header : option text) (st : face_state)
    (ln : text) :
  face_line allowed header st ln
    = FaceState
        (changed st
         ++ (if face_rewrites allowed ln
             then [FACE header (S (file_line_no st)) (rstrip_crlf ln)
                     (rstrip_crlf (face_out_line allowed ln))]
             else []))
        (out_lines st ++ [face_out_line allowed ln])
        (S (file_line_no st)).
Proof.
  unfold face_line, face_rewrites, face_out_line.
  destruct (if allowed then re_match PS_T0_RE ln else None); cbn [truthy].
  - reflexivity.
  - now rewrite app_nil_r.
Qed.

Lemma face_fold_lines (allowed : bool) (header : option text) (lines : list text) :
  forall st : face_state,
    fold_left (face_line allowed header) lines st
      = FaceState
          (changed st ++ face_changes_from allowed header (file_line_no st) lines)
          (out_lines st ++ map (face_out_line allowed) lines)
          (file_line_no st + length lines).
Proof.
  induction lines as [|ln rest IH]; intros st.
  - cbn. rewrite !app_nil_r, Nat.add_0_r. now destruct st.
  - cbn [fold_left]. rewrite IH, face_line_eq.
    cbn [changed out_lines file_line_no face_changes_from map length].
    rewrite <- !app_assoc. cbn [app].
    now rewrite Nat.add_succ_comm.
Qed.

Lemma face_fold_sections (manual_excludes : gset text) (secs : list section) :
  forall st : face_state,
    fold_left (face_section manual_excludes) secs st
      = FaceState
          (changed st ++ face_all_changes manual_excludes (file_line_no st) secs)
          (out_lines st ++ face_all_out manual_excludes secs)
          (file_line_no st + length (section_lines secs)).
Proof.
  induction secs as [|[h lines] rest IH]; intros st.
  - cbn. rewrite !app_nil_r, Nat.add_0_r. now destruct st.
  - cbn [fold_left]. rewrite IH.
    assert (E : face_section manual_excludes st (h, lines)
                = fold_left (face_line (face_allowed manual_excludes h lines) h)
                    lines st) by reflexivity.
    rewrite E, face_fold_lines.
    cbn [changed out_lines file_line_no face_all_changes fst snd].
    unfold face_all_out, section_lines, face_section_out.
    cbn [map concat fst snd].
    rewrite length_app, <- !app_assoc. now rewrite Nat.add_assoc.
Qed.

(** The pass in closed form. *)
Lemma process_face_sections_eq (secs : list section) (auto_mode : bool)
    (manual_excludes : gset text) :
  process_face_sections secs auto_mode manual_excludes
    = (face_all_changes manual_excludes 0 secs,
       join (face_all_out manual_excludes secs)).
Proof. unfold process_face_sections. now rewrite face_fold_sections. Qed.

Lemma face_out_line_cases (allowed : bool) (ln : text) :
  (face_rewrites allowed ln = false /\ face_out_line allowed ln = ln)
  \/ (exists m, allowed = true /\ re_match PS_T0_RE ln = Some m
                /\ face_rewrites allowed ln = true
                /\ face_out_line allowed ln = face_rewrite_of ln m).
Proof.
  unfold face_rewrites, face_out_line, face_rewrite_of.
  destruct allowed; [|left; split; reflexivity].
  destruct (re_match PS_T0_RE ln) as [m|]; [right | left; split; reflexivity].
  exists m. repeat split.
Qed.

Lemma face_all_out_not_allowed (manual_excludes : gset text) (secs : list section) :
  Forall (fun sec => face_allowed manual_excludes (fst sec) (snd sec) = false) secs ->
  face_all_changes manual_excludes 0 secs = []
  /\ face_all_out manual_excludes secs = section_lines secs.
Proof.
  assert (Hlines : forall h off lines,
             face_changes_from false h off lines = []
             /\ map (face_out_line false) lines = lines).
  { intros h off lines. revert off.
    induction lines as [|ln rest IH]; intros off; [split; reflexivity|].
    destruct (IH (S off)) as [E1 E2]. cbn [face_changes_from map].
    rewrite E1, E2. split; reflexivity. }
  assert (Hgen : forall off,
             Forall (fun sec => face_allowed manual_excludes (fst sec) (snd sec) = false)
               secs ->
             face_all_changes manual_excludes off secs = []
             /\ face_all_out manual_excludes secs = section_lines secs).
  { induction secs as [|[h lines] rest IH]; intros off Hall; [split; reflexivity|].
    apply Forall_cons_iff in Hall. destruct Hall as [Hsec Hrest].
    cbn [fst snd] in Hsec.
    destruct (IH (off + length lines) Hrest) as [E1 E2].
    destruct (Hlines h off lines) as [E3 E4].
    unfold face_all_out, section_lines, face_section_out in *.
    cbn [face_all_changes map concat fst snd].
    rewrite Hsec, E1, E2, E3, E4. split; reflexivity. }
  apply Hgen.
Qed.

Lemma join_split_sections (t : text) :
  join (section_lines (split_into_sections t)) = t.
Proof.
  unfold split_into_sections.
  rewrite split_flush_content, split_fold_content.
  unfold split_content. cbn [sections current_lines section_lines map concat join app].
  apply join_splitlines.
Qed.

(** X1. When no section of a text is eligible for FaceFix, the pass
    records no change and returns the text as it was. *)
Theorem face_pass_leaves_ineligible_text (t : text) (auto_mode : bool)
    (manual_excludes : gset text) :
  Forall (fun sec => face_allowed manual_excludes (fst sec) (snd sec) = false)
    (split_into_sections t) ->
  process_face_sections (split_into_sections t) auto_mode manual_excludes = ([], t).
Proof.
  intros Hall. rewrite process_face_sections_eq.
  destruct (face_all_out_not_allowed manual_excludes _ Hall) as [-> ->].
  now rewrite join_split_sections.
Qed.

Lemma face_pass_leaves_ineligible_text_witness :
  process_face_sections (split_into_sections ex_fresh_text) true ∅
    = ([], ex_fresh_text).
Proof.
  apply (face_pass_leaves_ineligible_text ex_fresh_text true ∅).
  vm_compute. repeat constructor.
Defined.

Lemma face_section_out_lines (allowed : bool) (lines : list text) :
  Forall2 (fun ln o => o = ln
                       \/ exists m, re_match PS_T0_RE ln = Some m
                                    /\ o = face_rewrite_of ln m)
    lines (map (face_out_line allowed) lines).
Proof.
  induction lines as [|ln rest IH]; [constructor|].
  cbn [map]. constructor; [|exact IH].
  destruct (face_out_line_cases allowed ln) as [[_ ->] | (m & _ & Hm & _ & ->)].
  - now left.
  - right. now exists m.
Qed.

(** X2. The FaceFix pass emits one line for each input line, in order:
    the line itself, or, for a line matching [PS_T0_RE], its indent,
    [this = ], the value, the trailing group and the computed ending. *)
Theorem face_pass_line_by_line (secs : list section) (auto_mode : bool)
    (manual_excludes : gset text) :
  exists outs : list text,
    snd (process_face_sections secs auto_mode manual_excludes) = join outs
    /\ Forall2 (fun ln o => o = ln
                            \/ exists m, re_match PS_T0_RE ln = Some m
                                         /\ o = face_rewrite_of ln m)
         (section_lines secs) outs.
Proof.
  rewrite process_face_sections_eq. exists (face_all_out manual_excludes secs).
  split; [reflexivity|].
  unfold face_all_out, section_lines.
  induction secs as [|[h lines] rest IH]; [constructor|].
  cbn [map concat fst snd]. apply Forall2_app; [|exact IH].
  apply face_section_out_lines.
Qed.

Lemma face_changes_from_records (allowed : bool) (h : option text)
    (before lines : list text) :
  Forall (face_record_at (before ++ lines))
    (face_changes_from allowed h (length before) lines).
Proof.
  revert before. induction lines as [|ln rest IH]; intros before; [constructor|].
  cbn [face_changes_from]. apply Forall_app. split.
  - destruct (face_out_line_cases allowed ln) as [[-> _] | (m & _ & Hm & -> & ->)];
      [constructor|].
    constructor; [|constructor].
    exists h, (length before), ln, m. repeat split; [|exact Hm].
    rewrite nth_error_app2 by lia. now rewrite Nat.sub_diag.
  - specialize (IH (before ++ [ln])).
    rewrite length_app, <- app_assoc in IH. cbn [length app] in IH.
    now rewrite Nat.add_1_r in IH.
Qed.

Lemma face_record_at_app (lines more : list text) (c : change) :
  face_record_at lines c -> face_record_at (lines ++ more) c.
Proof.
  intros (h & i & ln & m & -> & Hi & Hm). exists h, i, ln, m.
  repeat split; [|exact Hm].
  rewrite nth_error_app1; [exact Hi|].
  apply nth_error_Some. now rewrite Hi.
Qed.

Lemma face_all_changes_records (manual_excludes : gset text) (secs : list section) :
  forall before : list text,
    Forall (face_record_at (before ++ section_lines secs))
      (face_all_changes manual_excludes (length before) secs).
Proof.
  induction secs as [|[h lines] rest IH]; intros before; [constructor|].
  cbn [face_all_changes fst snd]. unfold section_lines. cbn [map concat fst snd].
  fold (section_lines rest). apply Forall_app. split.
  - eapply Forall_impl; [apply (face_changes_from_records _ h before lines)|].
    intros c Hc. rewrite app_assoc. now apply face_record_at_app.
  - specialize (IH (before ++ lines)).
    now rewrite length_app, <- app_assoc in IH.
Qed.

(** X3. Every change record of the FaceFix pass is a FACE record for an
    input line that matches [PS_T0_RE]: its line number is the 1-based
    position of that line among all lines of all sections, its old text
    is that line without trailing carriage returns and line feeds, its
    new text the rewritten line without them. *)
Theorem face_changes_point_at_lines (secs : list section) (auto_mode : bool)
    (manual_excludes : gset text) :
  Forall (face_record_at (section_lines secs))
    (fst (process_face_sections secs auto_mode manual_excludes)).
Proof.
  rewrite process_face_sections_eq. cbn [fst].
  exact (face_all_changes_records manual_excludes secs []).
Qed.

Lemma face_changes_from_sorted (allowed : bool) (h : option text)
    (lines : list text) :
  forall off : nat,
    StronglySorted (fun a b => change_line_no a < change_line_no b)
      (face_changes_from allowed h off lines)
    /\ Forall (fun c => off < change_line_no c /\ change_line_no c <= off + length lines)
         (face_changes_from allowed h off lines).
Proof.
  induction lines as [|ln rest IH]; intros off.
  - split; constructor.
  - destruct (IH (S off)) as [Hs Hb]. cbn [face_changes_from length].
    assert (Hb' : Forall (fun c => off < change_line_no c
                                   /\ change_line_no c <= off + S (length rest))
                    (face_changes_from allowed h (S off) rest)).
    { eapply Forall_impl; [exact Hb|]. cbn beta. intros c [H1 H2]. lia. }
    destruct (face_rewrites allowed ln); cbn [app].
    + split.
      * constructor; [exact Hs|].
        eapply Forall_impl; [exact Hb|]. cbn beta. intros c [H1 _]. exact H1.
      * constructor; [cbn; lia | exact Hb'].
    + split; assumption.
Qed.

Lemma face_all_changes_sorted (manual_excludes : gset text) (secs : list section) :
  forall off : nat,
    StronglySorted (fun a b => change_line_no a < change_line_no b)
      (face_all_changes manual_excludes off secs)
    /\ Forall (fun c => off < change_line_no c
                        /\ change_line_no c <= off + length (section_lines secs))
         (face_all_changes manual_excludes off secs).
Proof.
  induction secs as [|[h lines] rest IH]; intros off.
  - split; constructor.
  - destruct (IH (off + length lines)) as [Hs Hb].
    destruct (face_changes_from_sorted
                (face_allowed manual_excludes h lines) h lines off) as [Hs1 Hb1].
    cbn [face_all_changes fst snd]. unfold section_lines. cbn [map concat fst snd].
    fold (section_lines rest). rewrite length_app. split.
    + apply StronglySorted_app_2; [|assumption|assumption].
      intros x1 x2 H1 H2.
      rewrite Forall_forall in Hb1, Hb.
      destruct (Hb1 x1 H1) as [_ Hx1]. destruct (Hb x2 H2) as [Hx2 _]. lia.
    + apply Forall_app. split.
      * eapply Forall_impl; [exact Hb1|]. cbn beta. intros c [H1 H2]. lia.
      * eapply Forall_impl; [exact Hb|]. cbn beta. intros c [H1 H2]. lia.
Qed.

(** X4. The change records of the FaceFix pass come in file order: their
    line numbers are strictly increasing, at least 1 and at most the
    number of lines. *)
Theorem face_changes_in_file_order (secs : list section) (auto_mode : bool)
    (manual_excludes : gset text) :
  StronglySorted (fun a b => change_line_no a < change_line_no b)
    (fst (process_face_sections secs auto_mode manual_excludes))
  /\ Forall (fun c => 1 <= change_line_no c
                      /\ change_line_no c <= length (section_lines secs))
       (fst (process_face_sections secs auto_mode manual_excludes)).
Proof.
  rewrite process_face_sections_eq. cbn [fst].
  destruct (face_all_changes_sorted manual_excludes secs 0) as [Hs Hb].
  split; [exact Hs|].
  eapply Forall_impl; [exact Hb|]. cbn beta. intros c [H1 H2]. lia.
Qed.

(** ** [process_orfix_block] in closed form *)

Lemma process_orfix_block_model (blk : list text) (name : option text) :
  process_orfix_block blk name = Ok (orfix_block_model blk name).
Proof.
  destruct blk as [|x xs]; [reflexivity|].
  unfold process_orfix_block, orfix_block_model.
  cbn [nonempty negb]. rewrite first_pass_eq, second_pass_eq.
  destruct (last_slot 0 (x :: xs) None) as [i|]; [|reflexivity].
  set (kept := List.filter (fun y => negb (is_run_line y)) (x :: xs)).
  destruct (i <? length kept) eqn:Hi; cbn [andb]; [|reflexivity].
  destruct (i + 1 <? length kept) eqn:Hn; cbn [andb bind negb]; [|reflexivity].
  apply Nat.ltb_lt in Hn.
  destruct (py_index_in_range kept (i + 1) Hn) as [next Hnext].
  rewrite Hnext. cbn [bind].
  assert (Hnth : nth (i + 1) kept [] = next).
  { unfold py_index in Hnext.
    destruct (nth_error kept (i + 1)) as [y|] eqn:E; [|discriminate].
    injection Hnext as <-. now apply nth_error_nth. }
  rewrite Hnth. now destruct (text_eqb _ _).
Qed.

Lemma filter_run_of_kept (blk : list text) :
  List.filter is_run_line (List.filter (fun x => negb (is_run_line x)) blk) = [].
Proof.
  induction blk as [|x xs IH]; [reflexivity|].
  cbn [List.filter]. destruct (is_run_line x) eqn:Hx; cbn [negb]; [exact IH|].
  cbn [List.filter]. now rewrite Hx.
Qed.

Lemma filter_split_length {A : Type} (f : A -> bool) (l : list A) :
  length (List.filter f l) + length (List.filter (fun x => negb (f x)) l) = length l.
Proof.
  induction l as [|x xs IH]; [reflexivity|].
  cbn [List.filter]. destruct (f x); cbn [negb length]; lia.
Qed.

Lemma py_insert_length {A : Type} (i : nat) (x : A) (l : list A) :
  length (py_insert i x l) = S (length l).
Proof.
  unfold py_insert. rewrite length_app. cbn [length].
  rewrite <- (firstn_skipn i l) at 3. rewrite length_app. lia.
Qed.

Lemma filter_removals (name : option text) (f : text -> text) (l : list text) :
  List.filter is_remove (map (fun x => ORFIX_REMOVE name (f x)) l)
    = map (fun x => ORFIX_REMOVE name (f x)) l
  /\ List.filter is_add (map (fun x => ORFIX_REMOVE name (f x)) l) = [].
Proof.
  induction l as [|x xs [IH1 IH2]]; [split; reflexivity|].
  cbn [map List.filter is_remove is_add]. now rewrite IH1, IH2.
Qed.

Lemma directive_is_run_line (b : bool) :
  is_run_line (if b then ORFIX_RUN else NNFIX_RUN) = true.
Proof. destruct b; vm_compute; reflexivity. Qed.

(** X5. [process_orfix_block] keeps account of the lines: the lines it
    returns plus the removals it records are the lines of the block plus
    the insertions it records; it records at most one insertion; it
    records one removal for each run line of the block; and the run lines
    among the lines it returns are none when it records no insertion, and
    otherwise the one directive, ORFix or NNFix, whose trimmed text the
    recorded insertion holds. *)
Theorem orfix_block_accounts_for_lines (blk : list text) (name : option text) :
  exists (out : list text) (changes : list change),
    process_orfix_block blk name = Ok (out, changes)
    /\ length out + length (List.filter is_remove changes)
       = length blk + length (List.filter is_add changes)
    /\ length (List.filter is_add changes) <= 1
    /\ length (List.filter is_run_line out) = length (List.filter is_add changes)
    /\ length (List.filter is_remove changes) = length (List.filter is_run_line blk)
    /\ ((List.filter is_run_line out = [] /\ List.filter is_add changes = [])
        \/ exists directive : text,
             (directive = ORFIX_RUN \/ directive = NNFIX_RUN)
             /\ List.filter is_run_line out = [directive]
             /\ List.filter is_add changes = [ORFIX_ADD name (strip directive)]).
Proof.
  rewrite process_orfix_block_model.
  exists (fst (orfix_block_model blk name)), (snd (orfix_block_model blk name)).
  split; [now destruct (orfix_block_model blk name)|].
  unfold orfix_block_model.
  set (kept := List.filter (fun x => negb (is_run_line x)) blk).
  set (run := List.filter is_run_line blk).
  set (directive := if existsb _ blk then ORFIX_RUN else NNFIX_RUN).
  destruct (filter_removals name strip run) as [Hrem Hadd].
  pose proof (filter_split_length is_run_line blk) as Hlen.
  fold kept run in Hlen.
  pose proof (filter_run_of_kept blk) as Hkept. fold kept in Hkept.
  assert (Hbase :
    length kept + length (List.filter is_remove
                            (map (fun x => ORFIX_REMOVE name (strip x)) run))
      = length blk + length (List.filter is_add
                               (map (fun x => ORFIX_REMOVE name (strip x)) run))
    /\ length (List.filter is_add
                 (map (fun x => ORFIX_REMOVE name (strip x)) run)) <= 1
    /\ length (List.filter is_run_line kept)
       = length (List.filter is_add
                   (map (fun x => ORFIX_REMOVE name (strip x)) run))
    /\ length (List.filter is_remove
                 (map (fun x => ORFIX_REMOVE name (strip x)) run))
       = length run
    /\ ((List.filter is_run_line kept = []
         /\ List.filter is_add
              (map (fun x => ORFIX_REMOVE name (strip x)) run) = [])
        \/ exists d : text,
             (d = ORFIX_RUN \/ d = NNFIX_RUN)
             /\ List.filter is_run_line kept = [d]
             /\ List.filter is_add
                  (map (fun x => ORFIX_REMOVE name (strip x)) run)
                = [ORFIX_ADD name (strip d)])).
  { rewrite Hrem, Hadd, Hkept, length_map. cbn [length].
    repeat split; try lia. left. split; reflexivity. }
  destruct (last_slot 0 blk None) as [i|]; [|exact Hbase].
  destruct (_ && _); [|exact Hbase].
  cbn [fst snd]. rewrite !List.filter_app, Hrem, Hadd.
  cbn [List.filter is_remove is_add app length].
  rewrite py_insert_length, length_app, length_map. cbn [length].
  unfold py_insert. rewrite List.filter_app. cbn [List.filter].
  assert (Hd : is_run_line directive = true)
    by (unfold directive; apply directive_is_run_line).
  rewrite !Hd.
  assert (Hparts : List.filter is_run_line (firstn (i + 1) kept) = []
                   /\ List.filter is_run_line (skipn (i + 1) kept) = []).
  { rewrite <- (firstn_skipn (i + 1) kept), List.filter_app in Hkept.
    now apply app_eq_nil in Hkept. }
  destruct Hparts as [-> ->]. cbn [app length].
  split; [lia|]. split; [lia|]. split; [lia|]. split; [lia|].
  right. exists directive. split; [|split; reflexivity].
  unfold directive. destruct (existsb _ blk); [left | right]; reflexivity.
Qed.

(** ** Files reported as unchanged *)

Lemma filter_run_nil_kept (blk : list text) :
  List.filter is_run_line blk = [] ->
  List.filter (fun x => negb (is_run_line x)) blk = blk.
Proof.
  induction blk as [|x xs IH]; [reflexivity|].
  cbn [List.filter]. destruct (is_run_line x); [discriminate|].
  intros H. cbn [negb]. now rewrite IH.
Qed.

Lemma orfix_block_model_no_change (blk : list text) (name : option text) :
  snd (orfix_block_model blk name) = [] -> fst (orfix_block_model blk name) = blk.
Proof.
  unfold orfix_block_model.
  destruct (last_slot 0 blk None) as [i|].
  - destruct (_ && _); cbn [fst snd]; intros H.
    + apply app_eq_nil in H. destruct H as [_ H]. discriminate H.
    + apply map_eq_nil in H. now apply filter_run_nil_kept.
  - cbn [fst snd]. intros H. apply map_eq_nil in H. now apply filter_run_nil_kept.
Qed.

Lemma pending_out_no_change (auto_mode : bool) (manual_excludes : gset text)
    (cur : option text) (blk : list text) :
  snd (pending_out auto_mode manual_excludes cur blk) = [] ->
  fst (pending_out auto_mode manual_excludes cur blk) = blk.
Proof.
  unfold pending_out. destruct (_ && _); [|reflexivity].
  rewrite process_orfix_block_model. cbn [ok_or].
  apply orfix_block_model_no_change.
Qed.

Lemma blocks_out_no_change (auto_mode : bool) (manual_excludes : gset text)
    (bs : list block) :
  blocks_out_changes auto_mode manual_excludes bs = [] ->
  blocks_out_lines auto_mode manual_excludes bs = concat (map block_all_lines bs).
Proof.
  unfold blocks_out_changes, blocks_out_lines.
  induction bs as [|b bs IH]; [reflexivity|].
  cbn [map concat]. intros H. apply app_eq_nil in H. destruct H as [Hb Hbs].
  unfold block_out in *. rewrite (pending_out_no_change _ _ _ _ Hb), (IH Hbs).
  reflexivity.
Qed.

Lemma orfix_sections_no_change (t t' : text) (auto_mode : bool)
    (manual_excludes : gset text) :
  process_orfix_sections t auto_mode manual_excludes = Ok ([], t') -> t' = t.
Proof.
  rewrite process_orfix_sections_blocks.
  destruct (scan_blocks (splitlines t)) as [pre bs] eqn:Hscan.
  intros H. injection H as Hch <-.
  destruct (scan_blocks_partition _ _ _ Hscan) as (Hls & _ & _).
  rewrite (blocks_out_no_change _ _ _ Hch), <- Hls. apply join_splitlines.
Qed.

(** X6. When the ORFix pass records no change, the text it returns is the
    text it was given. *)
Theorem orfix_no_change_same_text (t t' : text) (auto_mode : bool)
    (manual_excludes : gset text) :
  process_orfix_sections t auto_mode manual_excludes = Ok ([], t') -> t' = t.
Proof. apply orfix_sections_no_change. Qed.

Lemma orfix_no_change_same_text_witness :
  ln "[CommandListLoadA2]" ++ ln "ps-t0 = a"
    = ln "[CommandListLoadA2]" ++ ln "ps-t0 = a".
Proof.
  apply (orfix_no_change_same_text
           (ln "[CommandListLoadA2]" ++ ln "ps-t0 = a")
           (ln "[CommandListLoadA2]" ++ ln "ps-t0 = a") false ∅).
  vm_compute. reflexivity.
Defined.

Lemma face_changes_from_none (allowed : bool) (h : option text) (lines : list text) :
  forall off : nat,
    face_changes_from allowed h off lines = [] ->
    map (face_out_line allowed) lines = lines.
Proof.
  induction lines as [|x xs IH]; intros off H; [reflexivity|].
  cbn [face_changes_from] in H. apply app_eq_nil in H. destruct H as [Hx Hxs].
  cbn [map]. rewrite (IH _ Hxs).
  destruct (face_out_line_cases allowed x) as [[_ ->] | (m & _ & _ & Hr & _)];
    [reflexivity|].
  rewrite Hr in Hx. discriminate Hx.
Qed.

Lemma face_all_changes_none (manual_excludes : gset text) (secs : list section) :
  forall off : nat,
    face_all_changes manual_excludes off secs = [] ->
    face_all_out manual_excludes secs = section_lines secs.
Proof.
  unfold face_all_out, section_lines.
  induction secs as [|[h lines] rest IH]; intros off H; [reflexivity|].
  cbn [face_all_changes fst snd] in H. apply app_eq_nil in H.
  destruct H as [Hsec Hrest].
  cbn [map concat fst snd]. unfold face_section_out at 1. cbn [fst snd].
  now rewrite (face_changes_from_none _ _ _ _ Hsec), (IH _ Hrest).
Qed.

(** X7. When the driver reports no change for a file it could read, the
    change list is empty and the text it returns is the text of the
    file. *)
Theorem driver_no_change_same_text (content : text) (auto_mode : bool)
    (manual_excludes : gset text) (process_disabled : bool)
    (changes : list change) (final_text : text) :
  process_file_combined (Some content) auto_mode manual_excludes process_disabled
    = (false, changes, final_text) ->
  changes = [] /\ final_text = content.
Proof.
  unfold process_file_combined.
  destruct (_ && _).
  - intros H. injection H as <- <-. split; reflexivity.
  - rewrite process_face_sections_eq.
    destruct (process_orfix_sections _ auto_mode manual_excludes)
      as [[oc ft]|e] eqn:Hor.
    + rewrite map_id. intros H. injection H as Hne <- <-.
      destruct (face_all_changes manual_excludes 0 (split_into_sections content)
                ++ oc) eqn:Hall; [|discriminate Hne].
      split; [reflexivity|].
      apply app_eq_nil in Hall. destruct Hall as [Hface ->].
      apply orfix_sections_no_change in Hor. subst ft.
      rewrite (face_all_changes_none _ _ _ Hface). apply join_split_sections.
    + exfalso. rewrite process_orfix_sections_blocks in Hor.
      destruct (scan_blocks _) in Hor. discriminate Hor.
Qed.

Lemma driver_no_change_same_text_witness :
  ([] : list change) = []
  /\ ln "[Constants]" ++ ln "ps-t0 = a" = ln "[Constants]" ++ ln "ps-t0 = a".
Proof.
  apply (driver_no_change_same_text (ln "[Constants]" ++ ln "ps-t0 = a")
           true ∅ false [] (ln "[Constants]" ++ ln "ps-t0 = a")).
  vm_compute. reflexivity.
Defined.

(** ** The ORFix pass: no exception, and the blocks it skips *)

(** X8. The ORFix pass returns a change list and a text for every text,
    mode and exclusion set: no index error of [process_orfix_block]
    reaches it. *)
Theorem orfix_pass_never_raises (t : text) (auto_mode : bool)
    (manual_excludes : gset text) :
  exists (changes : list change) (t' : text),
    process_orfix_sections t auto_mode manual_excludes = Ok (changes, t').
Proof.
  rewrite process_orfix_sections_blocks.
  destruct (scan_blocks (splitlines t)) as [pre bs].
  eexists; eexists; reflexivity.
Qed.

Lemma orfix_skipped_block (t : text) (auto_mode : bool)
    (manual_excludes : gset text) (pre : list text) (bs1 bs2 : list block)
    (b : block) :
  scan_blocks (splitlines t) = (pre, bs1 ++ b :: bs2) ->
  process_block auto_mode manual_excludes (block_name b) (snd b) = false ->
  process_orfix_sections t auto_mode manual_excludes
    = Ok (blocks_out_changes auto_mode manual_excludes bs1
            ++ blocks_out_changes auto_mode manual_excludes bs2,
          join (pre ++ blocks_out_lines auto_mode manual_excludes bs1
                    ++ block_all_lines b
                    ++ blocks_out_lines auto_mode manual_excludes bs2)).
Proof.
  intros Hscan Hskip.
  rewrite process_orfix_sections_blocks, Hscan.
  assert (Hout : block_out auto_mode manual_excludes b = (snd b, [])).
  { unfold block_out. now apply pending_out_skipped. }
  rewrite blocks_out_changes_app, blocks_out_lines_app.
  unfold blocks_out_changes at 2. unfold blocks_out_lines at 2.
  cbn [map concat]. rewrite Hout. cbn [fst snd app].
  reflexivity.
Qed.

(** X9. A block comes out of the ORFix pass unchanged and without any
    change recorded, between the outputs of the blocks around it, in each
    of these cases: in manual mode its bracketed name is in the exclusion
    set; in auto mode its name matches an auto-mode pattern; in either
    mode none of its lines is a slot-0 assignment. *)
Theorem orfix_skips_excluded_and_slotless_blocks (t : text) (auto_mode : bool)
    (manual_excludes : gset text) (pre : list text) (bs1 bs2 : list block)
    (b : block) :
  scan_blocks (splitlines t) = (pre, bs1 ++ b :: bs2) ->
  (auto_mode = false /\ bracket (block_name b) ∈ manual_excludes)
  \/ (auto_mode = true /\ should_auto_mode_exclude (block_name b) = true)
  \/ Forall (fun l => re_match PS_T0_ASSIGN_RE l = None) (snd b) ->
  process_orfix_sections t auto_mode manual_excludes
    = Ok (blocks_out_changes auto_mode manual_excludes bs1
            ++ blocks_out_changes auto_mode manual_excludes bs2,
          join (pre ++ blocks_out_lines auto_mode manual_excludes bs1
                    ++ block_all_lines b
                    ++ blocks_out_lines auto_mode manual_excludes bs2)).
Proof.
  intros Hscan Hcase. apply orfix_skipped_block; [exact Hscan|].
  unfold process_block.
  destruct Hcase as [[-> Hin] | [[-> Hmode] | Hnone]].
  - rewrite (bool_decide_eq_true_2 _ Hin). cbn [negb]. now rewrite andb_false_r.
  - rewrite Hmode. cbn [negb]. now rewrite andb_false_r.
  - assert (E : existsb (fun l => truthy (re_match PS_T0_ASSIGN_RE l)) (snd b) = false).
    { induction Hnone as [|l ls Hl _ IH]; [reflexivity|].
      cbn [existsb]. now rewrite Hl, IH. }
    rewrite E. destruct auto_mode; now rewrite andb_false_r.
Qed.

Lemma orfix_skips_excluded_and_slotless_blocks_witness :
  process_orfix_sections
    (ln "[CommandListA]" ++ ln "ps-t0 = a" ++ ln "[TextureOverrideB]" ++ ln "ps-t0 = b")
    false {[ s2l "[CommandListA]" ]}
  = Ok ([ORFIX_ADD (Some (s2l "TextureOverrideB")) (s2l RUN_NN)],
        ln "[CommandListA]" ++ ln "ps-t0 = a" ++ ln "[TextureOverrideB]"
        ++ ln "ps-t0 = b" ++ ln RUN_NN).
Proof.
  refine (eq_trans
            (orfix_skips_excluded_and_slotless_blocks
               (ln "[CommandListA]" ++ ln "ps-t0 = a" ++ ln "[TextureOverrideB]"
                ++ ln "ps-t0 = b")
               false {[ s2l "[CommandListA]" ]} [] []
               [(ln "[TextureOverrideB]", [ln "ps-t0 = b"])]
               (ln "[CommandListA]", [ln "ps-t0 = a"]) _ _) _).
  - vm_compute. reflexivity.
  - left. split; [reflexivity|]. apply elem_of_singleton. vm_compute. reflexivity.
  - vm_compute. reflexivity.
Defined.

(** ** The exclusion patterns *)

Lemma lit_lower_startswith (p : text) :
  Forall (fun a => lower a = a) p ->
  forall s : text, truthy (lit true p s) = startswith p (str_lower s).
Proof.
  induction 1 as [|a p Ha _ IH]; intros s; [reflexivity|].
  destruct s as [|c s]; [reflexivity|].
  cbn [lit str_lower map startswith]. unfold char_eq. rewrite Ha.
  unfold ascii_eqb. rewrite (Ascii.eqb_sym a (lower c)).
  destruct (Ascii.eqb (lower c) a); cbn [andb]; [apply IH | reflexivity].
Qed.

Lemma search_lower_contains (pat : pattern) (p : text) (total : nat) :
  ignorecase pat = true ->
  Forall (fun a => lower a = a) p ->
  (forall s, truthy (rmatch true total (body pat) s [] (fun _ g => Some g))
             = truthy (lit true p s)) ->
  forall s : text, truthy (search_from pat total s) = contains p (str_lower s).
Proof.
  intros Hic Hp Hm. induction s as [|c s IH].
  - cbn [search_from str_lower map contains]. rewrite Hic.
    specialize (Hm []). rewrite lit_lower_startswith in Hm by exact Hp.
    cbn [str_lower map] in Hm.
    destruct (rmatch _ _ _ _ _ _); cbn [truthy] in *; rewrite <- Hm; reflexivity.
  - cbn [search_from]. rewrite Hic.
    specialize (Hm (c :: s)). rewrite lit_lower_startswith in Hm by exact Hp.
    change (contains p (str_lower (c :: s)))
      with (startswith p (str_lower (c :: s)) || contains p (str_lower s)).
    destruct (rmatch _ _ _ _ _ _); cbn [truthy] in *; rewrite <- Hm; cbn [orb].
    + reflexivity.
    + exact IH.
Qed.

(** On the code points of this development (below 256, where
    [re.IGNORECASE] folds a letter onto its two cases only): a name is
    excluded in auto mode exactly when, put in lower case, it contains
    [face] or [limb]. *)
Lemma auto_mode_exclude_spec (name : text) :
  should_auto_mode_exclude (Some name) = true
  <-> exists a b : text,
        str_lower name = a ++ s2l "face" ++ b
        \/ str_lower name = a ++ s2l "limb" ++ b.
Proof.
  assert (Hface : truthy (re_search (Pattern true (RStr "face")) name)
                  = contains (s2l "face") (str_lower name)).
  { apply search_lower_contains; [reflexivity | repeat constructor |].
    intros s. cbn [body rmatch]. now destruct (lit true (s2l "face") s). }
  assert (Hlimb : truthy (re_search
                            (Pattern true (rseq [RStr "limb"; ROpt (CChar "s")])) name)
                  = contains (s2l "limb") (str_lower name)).
  { apply search_lower_contains; [reflexivity | repeat constructor |].
    intros s. cbn [body rseq fold_right rmatch].
    destruct (lit true (s2l "limb") s) as [[|c s']|]; [reflexivity | | reflexivity].
    now destruct (cset_mem true (CChar "s") c). }
  unfold should_auto_mode_exclude, AUTO_MODE_EXCLUDE_PATTERNS.
  cbn [existsb fmt]. rewrite Hface, Hlimb, orb_false_r.
  destruct name as [|c name].
  - cbn. split; [discriminate|].
    intros (a & b & [H | H]); destruct a; discriminate H.
  - cbn [str_truthy negb]. rewrite orb_true_iff, !contains_spec. split.
    + intros [(a & b & H) | (a & b & H)]; exists a, b; [left | right]; exact H.
    + intros (a & b & [H | H]); [left | right]; exists a, b; exact H.
Qed.

Lemma star_greedy_complete (f : ascii -> bool) (k : text -> option groups)
    (ws s' : text) :
  Forall (fun c => f c = true) ws ->
  truthy (k s') = true ->
  truthy (star_greedy f (ws ++ s') k) = true.
Proof.
  intros Hws Hk. induction Hws as [|c ws Hc _ IH].
  - cbn [app]. destruct s' as [|c s']; cbn [star_greedy]; [exact Hk|].
    destruct (f c); [|exact Hk].
    destruct (star_greedy f s' k); [reflexivity | exact Hk].
  - cbn [app star_greedy]. rewrite Hc.
    destruct (star_greedy f (ws ++ s') k); [reflexivity | discriminate IH].
Qed.

Lemma lit_ci_app (p : text) :
  forall x rest : text,
    str_lower x = str_lower p -> lit true p (x ++ rest) = Some rest.
Proof.
  induction p as [|a p IH]; intros [|c x] rest H; try discriminate H.
  - reflexivity.
  - cbn [str_lower map] in H. injection H as Hc Hx.
    cbn [app lit]. unfold char_eq. rewrite Hc.
    unfold ascii_eqb. rewrite Ascii.eqb_refl. now apply IH.
Qed.

Lemma not_lf_any (a : text) :
  Forall (fun c => c <> LF) a ->
  Forall (fun c => cset_mem true CAny c = true) a.
Proof.
  intros H. eapply Forall_impl; [exact H|]. cbn beta. intros c Hc.
  cbn [cset_mem]. destruct (ascii_eqb c LF) eqn:E; [|reflexivity].
  apply ascii_eqb_eq in E. contradiction.
Qed.

(** X11. Every name that ends in [IB], in any letter case, and has no
    line feed before that ending is structurally excluded from ORFix,
    whatever it starts with. *)
Theorem index_buffer_names_excluded (a x : text) :
  str_lower x = s2l "ib" ->
  Forall (fun c => c <> LF) a ->
  should_auto_exclude_section (Some (a ++ x)) = true.
Proof.
  intros Hx Ha. unfold should_auto_exclude_section.
  assert (Hne : str_truthy (Some (a ++ x)) = true).
  { destruct a; [|reflexivity]. destruct x; [discriminate Hx | reflexivity]. }
  rewrite Hne. cbn [negb]. apply existsb_exists.
  exists (Pattern true (rseq [RBol; RStr "["; RStar CAny; RStr "IB"; RStr "]"; REol])).
  split; [left; reflexivity|].
  unfold re_match. cbn [body ignorecase rseq fold_right rmatch].
  rewrite Nat.eqb_refl. unfold bracket. cbn [fmt].
  rewrite (lit_ci_app (s2l "[") (s2l "[")) by reflexivity.
  rewrite <- app_assoc.
  apply star_greedy_complete; [now apply not_lf_any|].
  rewrite (lit_ci_app (s2l "IB") x) by (rewrite Hx; reflexivity).
  reflexivity.
Qed.

Lemma index_buffer_names_excluded_witness :
  should_auto_exclude_section (Some (s2l "TextureOverrideBody" ++ s2l "Ib")) = true.
Proof.
  apply (index_buffer_names_excluded (s2l "TextureOverrideBody") (s2l "Ib")).
  - vm_compute. reflexivity.
  - repeat constructor; discriminate.
Defined.

Lemma suffix_tail_matches (total : nat) (suffix : string) (mid x : text)
    (g0 : groups) :
  str_lower x = str_lower (s2l suffix) ->
  Forall (fun c => c <> LF) mid ->
  truthy (rmatch true total (rseq [RStar CAny; RStr suffix; RStr "]"; REol])
            (mid ++ x ++ s2l "]") g0 (fun _ g => Some g)) = true.
Proof.
  intros Hx Hmid. cbn [rseq fold_right rmatch].
  apply star_greedy_complete; [now apply not_lf_any|].
  rewrite (lit_ci_app (s2l suffix) x) by exact Hx.
  reflexivity.
Qed.

(** X12. Every name that starts with [CommandList] or [TextureOverride]
    and ends in [Position], [Texcoord], [Blend], [Info] or
    [VertexLimitRaise], each in any letter case, with no line feed in
    between, is structurally excluded from ORFix. *)
Theorem suffixed_names_excluded (p mid x : text) (suffix : string) :
  In suffix ["Position"; "Texcoord"; "Blend"; "Info"; "VertexLimitRaise"]%string ->
  str_lower p = s2l "commandlist" \/ str_lower p = s2l "textureoverride" ->
  str_lower x = str_lower (s2l suffix) ->
  Forall (fun c => c <> LF) mid ->
  should_auto_exclude_section (Some (p ++ mid ++ x)) = true.
Proof.
  intros Hin Hp Hx Hmid. unfold should_auto_exclude_section.
  assert (Hne : str_truthy (Some (p ++ mid ++ x)) = true).
  { destruct p; [|reflexivity]. destruct Hp as [Hp | Hp]; discriminate Hp. }
  rewrite Hne. cbn [negb]. apply existsb_exists.
  exists (prefixed suffix). split.
  { unfold AUTO_EXCLUDE_PATTERNS.
    destruct Hin as [<- | [<- | [<- | [<- | [<- | []]]]]]; cbn; tauto. }
  unfold re_match, prefixed, PREFIX_GROUP.
  cbn [body ignorecase rseq fold_right rmatch].
  rewrite Nat.eqb_refl. unfold bracket. cbn [fmt].
  rewrite (lit_ci_app (s2l "[") (s2l "[")) by reflexivity.
  rewrite <- !app_assoc.
  pose proof (fun g0 => suffix_tail_matches
                (length (s2l "[" ++ p ++ mid ++ x ++ s2l "]")) suffix mid x g0
                Hx Hmid) as Htail.
  cbn [rseq fold_right rmatch] in Htail.
  destruct Hp as [Hp | Hp].
  - rewrite (lit_ci_app (s2l "CommandList") p) by (rewrite Hp; reflexivity).
    match goal with
    | |- truthy (match ?X with Some g' => Some g' | None => _ end) = true =>
        assert (HX : truthy X = true) by apply Htail;
        destruct X; [reflexivity | discriminate HX]
    end.
  - match goal with
    | |- truthy (match ?X with Some g' => Some g' | None => _ end) = true =>
        destruct X; [reflexivity|]
    end.
    rewrite (lit_ci_app (s2l "TextureOverride") p) by (rewrite Hp; reflexivity).
    apply Htail.
Qed.

Lemma suffixed_names_excluded_witness :
  should_auto_exclude_section
    (Some (s2l "commandlist" ++ s2l "Body" ++ s2l "TEXCOORD")) = true.
Proof.
  apply (suffixed_names_excluded (s2l "commandlist") (s2l "Body")
           (s2l "TEXCOORD") "Texcoord").
  - right. left. reflexivity.
  - left. vm_compute. reflexivity.
  - vm_compute. reflexivity.
  - repeat constructor; discriminate.
Defined.

(** ** The key looked up in the manual exclusion set *)

(** X13. For a stripped header line that opens a block, the key the scan
    looks up in the manual exclusion set, a bracket around the line
    without its first and last character, is the line itself exactly
    when the line ends with a closing bracket. *)
Theorem manual_exclusion_key_round_trip (s : text) :
  is_block_header s = true ->
  (bracket (Some (slice_1_m1 s)) = s <-> exists r, s = r ++ s2l "]").
Proof.
  intros Hh.
  assert (Hs : exists c tl', s = "["%char :: c :: tl').
  { unfold is_block_header in Hh. apply orb_true_iff in Hh.
    rewrite !startswith_spec in Hh.
    destruct Hh as [[r ->] | [r ->]]; eexists; eexists; reflexivity. }
  destruct Hs as (c & tl' & ->).
  unfold bracket, slice_1_m1. cbn [fmt tl s2l list_ascii_of_string app].
  split.
  - intros H. exists ("["%char :: removelast (c :: tl')). now rewrite <- H at 1.
  - intros [r Hr]. destruct r as [|c0 r]; [discriminate Hr|].
    cbn [app] in Hr. injection Hr as <- Htl.
    rewrite Htl, removelast_last. reflexivity.
Qed.

Lemma manual_exclusion_key_round_trip_witness :
  bracket (Some (slice_1_m1 (s2l "[CommandListX]"))) = s2l "[CommandListX]"
  <-> exists r, s2l "[CommandListX]" = r ++ s2l "]".
Proof.
  apply (manual_exclusion_key_round_trip (s2l "[CommandListX]")).
  vm_compute. reflexivity.
Defined.

(** ** Folder exclusion *)

Lemma path_norm_app (a b : text) : path_norm (a ++ b) = path_norm a ++ path_norm b.
Proof. unfold path_norm, str_lower, replace_backslash. now rewrite !map_app. Qed.

Lemma contains_app_r (p s rest : text) :
  contains p s = true -> contains p (s ++ rest) = true.
Proof.
  rewrite !contains_spec. intros (a & b & ->).
  exists a, (b ++ rest). now rewrite <- !app_assoc.
Qed.

Lemma contains_app_l (p s before : text) :
  contains p s = true -> contains p (before ++ s) = true.
Proof.
  rewrite !contains_spec. intros (a & b & ->).
  exists (before ++ a), b. now rewrite <- !app_assoc.
Qed.

(** X14. For paths of code points below 256, on which [str.lower] works
    character by character, folder exclusion is inherited: when a path is
    excluded by a list of patterns, so is every path that contains it,
    such as any subfolder of an excluded folder. *)
Theorem should_exclude_inherited (before path rest : text) (patterns : list text) :
  should_exclude path patterns = true ->
  should_exclude (before ++ path ++ rest) patterns = true.
Proof.
  unfold should_exclude. rewrite !existsb_exists.
  intros (pat & Hin & Hc). exists pat. split; [exact Hin|].
  rewrite !path_norm_app. now apply contains_app_l, contains_app_r.
Qed.

Lemma should_exclude_inherited_witness :
  should_exclude (s2l "C:\" ++ s2l "Mods\Old" ++ s2l "\Body\Textures")
    [s2l "*_backup.bak"; s2l "*.bak"; s2l "*old*"] = true.
Proof.
  apply (should_exclude_inherited (s2l "C:\") (s2l "Mods\Old") (s2l "\Body\Textures")).
  vm_compute. reflexivity.
Defined.

Lemma path_norm_char_idem (c : ascii) :
  lower (if ascii_eqb (lower (if ascii_eqb c "\" then "/" else c)) "\"
         then "/" else lower (if ascii_eqb c "\" then "/" else c))
  = lower (if ascii_eqb c "\" then "/" else c).
Proof. destruct c as [[] [] [] [] [] [] [] []]; vm_compute; reflexivity. Qed.

(** X15. Folder exclusion does not depend on letter case or on the
    direction of the slashes in the path: a path and its normal form
    (backslashes turned into slashes, lower case) are excluded by the
    same patterns. *)
Theorem should_exclude_path_normal_form (path : text) (patterns : list text) :
  should_exclude (path_norm path) patterns = should_exclude path patterns.
Proof.
  unfold should_exclude.
  assert (E : path_norm (path_norm path) = path_norm path).
  { unfold path_norm, str_lower, replace_backslash. rewrite !map_map.
    apply map_ext. intros c. apply path_norm_char_idem. }
  now rewrite E.
Qed.

Lemma drop_while_all (f : ascii -> bool) (s : text) :
  Forall (fun c => f c = true) s -> drop_while f s = [].
Proof.
  induction 1 as [|c s Hc _ IH]; [reflexivity|].
  cbn [drop_while]. now rewrite Hc.
Qed.

Lemma contains_nil (s : text) : contains [] s = true.
Proof. destruct s; reflexivity. Qed.

(** X16. A pattern made of asterisks only (the pattern built from the
    folder name [*] is one) excludes every path. *)
Theorem should_exclude_asterisk_pattern (path pat : text) (patterns : list text) :
  In pat patterns ->
  Forall (fun c => c = "*"%char) pat ->
  should_exclude path patterns = true.
Proof.
  intros Hin Hstar. unfold should_exclude. apply existsb_exists.
  exists pat. split; [exact Hin|].
  assert (E : strip_stars pat = []).
  { unfold strip_stars. rewrite (drop_while_all _ pat); [reflexivity|].
    eapply Forall_impl; [exact Hstar|]. cbn beta. intros c ->. reflexivity. }
  rewrite E. apply contains_nil.
Qed.

Lemma should_exclude_asterisk_pattern_witness :
  should_exclude (s2l "C:\Mods\Body") [s2l "*.bak"; s2l "***"] = true.
Proof.
  apply (should_exclude_asterisk_pattern (s2l "C:\Mods\Body") (s2l "***")).
  - right. left. reflexivity.
  - repeat constructor.
Defined.

(** ** The shape of a match of [PS_T0_RE] *)

Lemma star_lazy_split (f : ascii -> bool) (k : text -> option groups)
    (g : groups) :
  forall s : text,
    star_lazy f s k = Some g ->
    exists ws s', s = ws ++ s' /\ Forall (fun c => f c = true) ws /\ k s' = Some g.
Proof.
  induction s as [|c s IH]; intros H.
  - cbn [star_lazy] in H. destruct (k []) eqn:Hk; [|discriminate H].
    exists [], []. repeat split; [constructor | now rewrite Hk].
  - cbn [star_lazy] in H. destruct (k (c :: s)) eqn:Hk.
    + exists [], (c :: s). repeat split; [constructor | now rewrite Hk].
    + destruct (f c) eqn:Hc; [|discriminate H].
      destruct (IH H) as (ws & s' & -> & Hws & Hk').
      exists (c :: ws), s'. repeat split; [constructor; assumption | exact Hk'].
Qed.

Lemma lit_split (ic : bool) (p : text) :
  forall s s' : text,
    lit ic p s = Some s' -> exists x, s = x ++ s' /\ length x = length p.
Proof.
  induction p as [|a p IH]; intros s s' H.
  - cbn [lit] in H. injection H as ->. now exists [].
  - destruct s as [|c s]; [discriminate H|]. cbn [lit] in H.
    destruct (char_eq ic a c); [|discriminate H].
    destruct (IH _ _ H) as (x & -> & Hx). exists (c :: x).
    split; [reflexivity | cbn [length]; now rewrite Hx].
Qed.

Lemma star_greedy_all (f : ascii -> bool) (k : text -> option groups) (s : text) :
  Forall (fun c => f c = true) s ->
  truthy (k []) = true ->
  star_greedy f s k = k [].
Proof.
  intros Hs Hk. induction Hs as [|c s Hc _ IH]; [reflexivity|].
  cbn [star_greedy]. rewrite Hc, IH.
  destruct (k []); [reflexivity | discriminate Hk].
Qed.

Lemma firstn_app_minus {A : Type} (a b : list A) :
  firstn (length (a ++ b) - length b) (a ++ b) = a.
Proof.
  rewrite length_app. replace (length a + length b - length b) with (length a) by lia.
  rewrite firstn_app, Nat.sub_diag, firstn_all. cbn [firstn]. apply app_nil_r.
Qed.

(** A match of [PS_T0_RE] cuts the line into the indent (group 1), the
    key and the equals sign with the white space around it, the value
    (group 3) and the rest of the line (group 4): the indent and the rest
    are white space, the value is not empty and has no line feed. *)
Lemma ps_t0_match_shape (ln : text) (m : groups) :
  re_match PS_T0_RE ln = Some m ->
  exists key_part : text,
    ln = group 1 m ++ key_part ++ group 3 m ++ group 4 m
    /\ Forall (fun c => isspace c = true) (group 1 m)
    /\ group 3 m <> []
    /\ Forall (fun c => c <> LF) (group 3 m)
    /\ Forall (fun c => isspace c = true) (group 4 m).
Proof.
  unfold re_match, PS_T0_RE.
  cbn [body ignorecase rseq fold_right rmatch cset_mem].
  rewrite Nat.eqb_refl. intros H.
  apply star_greedy_split in H. destruct H as (ws1 & s1 & -> & Hws1 & H).
  rewrite firstn_app_minus in H.
  destruct (lit true (s2l "ps-t0") s1) as [s2|] eqn:Hkey; [|discriminate H].
  apply lit_split in Hkey. destruct Hkey as (key & -> & _).
  apply star_greedy_split in H. destruct H as (ws2 & s3 & -> & _ & H).
  destruct (lit true (s2l "=") s3) as [s4|] eqn:Heq; [|discriminate H].
  apply lit_split in Heq. destruct Heq as (eqs & -> & _).
  apply star_greedy_split in H. destruct H as (ws3 & s5 & -> & _ & H).
  destruct s5 as [|c s6]; [discriminate H|].
  destruct (negb (ascii_eqb c LF)) eqn:Hc; [|discriminate H].
  apply star_lazy_split in H. destruct H as (r & s7 & -> & Hr & H).
  change (c :: r ++ s7) with ((c :: r) ++ s7) in H.
  rewrite firstn_app_minus in H.
  pose proof H as H'. apply star_greedy_split in H'.
  destruct H' as (ws4 & s8 & Hs7 & Hws4 & H').
  assert (Hall : Forall (fun c => isspace c = true) s7).
  { rewrite Hs7. apply Forall_app. split; [exact Hws4|].
    destruct s8 as [|d [|d' s9]]; [constructor | | discriminate H'].
    destruct (ascii_eqb d LF) eqn:Hd; [|discriminate H'].
    apply ascii_eqb_eq in Hd. subst d. repeat constructor. }
  rewrite star_greedy_all in H by (exact Hall || reflexivity).
  rewrite Nat.sub_0_r, firstn_all in H. injection H as <-.
  cbn [group Nat.eqb].
  exists (key ++ ws2 ++ eqs ++ ws3). repeat split.
  - now rewrite <- !app_assoc.
  - exact Hws1.
  - discriminate.
  - constructor.
    + intros ->. discriminate Hc.
    + eapply Forall_impl; [exact Hr|]. cbn beta. intros d Hd ->. discriminate Hd.
  - exact Hall.
Qed.

Lemma star_greedy_none (f : ascii -> bool) (k : text -> option groups) (s : text) :
  (forall ws s', s = ws ++ s' -> Forall (fun c => f c = true) ws -> k s' = None) ->
  star_greedy f s k = None.
Proof.
  intros Hk. destruct (star_greedy f s k) as [g|] eqn:E; [|reflexivity].
  apply star_greedy_split in E. destruct E as (ws & s' & Hs & Hws & Hg).
  rewrite (Hk ws s' Hs Hws) in Hg. discriminate Hg.
Qed.

Lemma letter_p_not_space (c : ascii) :
  char_eq true "p" c = true -> isspace c = false.
Proof.
  destruct c as [[] [] [] [] [] [] [] []]; intros H;
    first [reflexivity | vm_compute in H; discriminate H].
Qed.

(** X17. A line the FaceFix pass has rewritten is not rewritten again:
    the rewritten form of a line that matches [PS_T0_RE] does not match
    it. *)
Theorem face_rewrite_not_matched_again (ln : text) (m : groups) :
  re_match PS_T0_RE ln = Some m ->
  re_match PS_T0_RE (face_rewrite_of ln m) = None.
Proof.
  intros Hm. destruct (ps_t0_match_shape ln m Hm) as (_ & _ & Hind & _).
  unfold re_match, PS_T0_RE.
  cbn [body ignorecase rseq fold_right rmatch cset_mem].
  rewrite Nat.eqb_refl. apply star_greedy_none.
  intros ws s' Hs Hws.
  destruct (lit true (s2l "ps-t0") s') as [s2|] eqn:Hkey; [exfalso | reflexivity].
  destruct s' as [|c s'']; [discriminate Hkey|].
  cbn [s2l list_ascii_of_string lit] in Hkey.
  destruct (char_eq true "p" c) eqn:Hc; [|discriminate Hkey].
  assert (E1 : lstrip (face_rewrite_of ln m) = c :: s'').
  { rewrite Hs, lstrip_spaces_app by exact Hws.
    unfold lstrip. cbn [drop_while]. now rewrite (letter_p_not_space c Hc). }
  unfold face_rewrite_of in E1. rewrite lstrip_spaces_app in E1 by exact Hind.
  injection E1 as <- _. discriminate Hc.
Qed.

Lemma face_rewrite_not_matched_again_witness :
  re_match PS_T0_RE (face_rewrite_of (ln "ps-t0 = x") ex_slot_line_groups) = None.
Proof.
  apply (face_rewrite_not_matched_again (ln "ps-t0 = x") ex_slot_line_groups).
  vm_compute. reflexivity.
Defined.

Lemma endswith_spec (e s : text) :
  endswith e s = true <-> exists x, s = x ++ e.
Proof.
  unfold endswith. rewrite startswith_spec. split.
  - intros [r Hr]. exists (rev r).
    rewrite <- (rev_involutive s), Hr, rev_app_distr. now rewrite rev_involutive.
  - intros [x ->]. exists (rev x). apply rev_app_distr.
Qed.

Lemma shared_suffix {A : Type} (p : list A) :
  forall s x e : list A,
    p ++ s = x ++ e -> length e <= length s -> exists s', s = s' ++ e.
Proof.
  induction p as [|a p IH]; intros s x e H Hlen.
  - now exists x.
  - destruct x as [|a' x].
    + cbn [app] in H. subst e. cbn [length] in Hlen. rewrite length_app in Hlen. lia.
    + injection H as _ H. now apply (IH s x e).
Qed.

(** X18. The rewritten form of every line that matches [PS_T0_RE] ends
    with the line ending the loop computes, twice: group 4 reaches to the
    end of the line and holds the ending, and the ending is appended once
    more. *)
Theorem face_rewrite_repeats_line_ending (ln : text) (m : groups) :
  re_match PS_T0_RE ln = Some m ->
  exists r : text, face_rewrite_of ln m = r ++ line_ending ln ++ line_ending ln.
Proof.
  intros Hm.
  destruct (ps_t0_match_shape ln m Hm) as (kp & Hln & _ & Hne & Hnolf & _).
  assert (Hsuf : line_ending ln = [] \/
                 exists s', group 3 m ++ group 4 m = s' ++ line_ending ln).
  { assert (Hlf : forall x, ln = x ++ [LF] ->
                   exists g4', group 4 m = g4' ++ [LF]).
    { intros x Hx. rewrite Hx, !app_assoc in Hln. symmetry in Hln.
      destruct (group 4 m) as [|d g4] using rev_ind.
      - exfalso. rewrite app_nil_r in Hln.
        destruct (group 3 m) as [|d g3] using rev_ind; [now apply Hne|].
        rewrite !app_assoc in Hln. apply app_inj_tail in Hln.
        destruct Hln as [_ ->]. apply Forall_app in Hnolf.
        destruct Hnolf as [_ Hd]. apply Forall_cons_iff in Hd. now destruct Hd.
      - rewrite !app_assoc in Hln. apply app_inj_tail in Hln.
        destruct Hln as [_ ->]. now exists g4. }
    unfold line_ending.
    destruct (endswith [CR; LF] ln) eqn:Hcrlf.
    - right. apply endswith_spec in Hcrlf. destruct Hcrlf as [x Hx].
      destruct (Hlf (x ++ [CR])) as [g4' Hg4]; [now rewrite <- app_assoc|].
      rewrite Hx, app_assoc in Hln. symmetry in Hln.
      apply shared_suffix in Hln; [exact Hln|].
      rewrite Hg4, !length_app. cbn [length].
      destruct (group 3 m); [now contradiction Hne | cbn [length]; lia].
    - destruct (endswith [LF] ln) eqn:Hlfe; [right | now left].
      apply endswith_spec in Hlfe. destruct Hlfe as [x Hx].
      rewrite Hx, app_assoc in Hln. symmetry in Hln.
      apply shared_suffix in Hln; [exact Hln|].
      rewrite length_app. cbn [length].
      destruct (group 3 m); [now contradiction Hne | cbn [length]; lia]. }
  unfold face_rewrite_of. destruct Hsuf as [-> | [s' Hs']].
  - eexists. now rewrite !app_nil_r.
  - exists (group 1 m ++ s2l "this = " ++ s').
    rewrite (app_assoc (group 3 m)), Hs'. now rewrite <- !app_assoc.
Qed.

Lemma face_rewrite_repeats_line_ending_witness :
  exists r : text,
    face_rewrite_of (ln "ps-t0 = x") ex_slot_line_groups
    = r ++ line_ending (ln "ps-t0 = x") ++ line_ending (ln "ps-t0 = x").
Proof.
  apply (face_rewrite_repeats_line_ending (ln "ps-t0 = x") ex_slot_line_groups).
  vm_compute. reflexivity.
Defined.

(** ** The Section Splitter cuts at header lines *)

Lemma split_flush_close (st : split_state) :
  split_flush st
    = sections st ++ close_section (current_header st) (current_lines st).
Proof.
  unfold split_flush, close_section.
  destruct (nonempty (current_lines st) || truthy (current_header st));
    [reflexivity | now rewrite app_nil_r].
Qed.

Lemma split_fold_scan (lines : list text) :
  forall st : split_state,
    split_flush (fold_left split_step lines st)
      = sections st
        ++ close_section (current_header st)
             (current_lines st ++ fst (scan_sections lines))
        ++ map header_section (snd (scan_sections lines)).
Proof.
  induction lines as [|l ls IH]; intros st.
  - cbn [fold_left scan_sections fst snd map].
    now rewrite split_flush_close, !app_nil_r.
  - cbn [fold_left scan_sections]. rewrite IH.
    destruct (scan_sections ls) as [pre bs]. cbn [fst snd].
    destruct (re_match SECTION_HEADER_RE l) as [m|] eqn:Hm.
    + assert (E1 : split_step st l
                   = SplitState (split_flush st) (Some (strip (group 1 m))) [l])
        by (unfold split_step; now rewrite Hm).
      assert (E2 : is_section_header l = true)
        by (unfold is_section_header; now rewrite Hm).
      assert (E3 : header_section (l, pre) = (Some (strip (group 1 m)), l :: pre))
        by (unfold header_section, header_name; cbn [fst snd]; now rewrite Hm).
      rewrite E1, E2. cbn [sections current_header current_lines fst snd map].
      rewrite E3, split_flush_close, app_nil_r, <- !app_assoc. reflexivity.
    + assert (E1 : split_step st l
                   = SplitState (sections st) (current_header st)
                       (current_lines st ++ [l]))
        by (unfold split_step; now rewrite Hm).
      assert (E2 : is_section_header l = false)
        by (unfold is_section_header; now rewrite Hm).
      rewrite E1, E2. cbn [sections current_header current_lines fst snd].
      now rewrite <- !app_assoc.
Qed.

Lemma scan_sections_partition (lines : list text) :
  forall (pre : list text) (bs : list block),
    scan_sections lines = (pre, bs) ->
    lines = pre ++ concat (map block_all_lines bs)
    /\ Forall (fun l => is_section_header l = false) pre
    /\ Forall (fun b => is_section_header (fst b) = true
                        /\ Forall (fun l => is_section_header l = false) (snd b)) bs.
Proof.
  induction lines as [|l ls IH]; intros pre bs Hscan.
  - injection Hscan as <- <-. repeat split; constructor.
  - cbn [scan_sections] in Hscan.
    destruct (scan_sections ls) as [pre' bs'].
    destruct (IH pre' bs' eq_refl) as (Hls & Hpre & Hbs).
    destruct (is_section_header l) eqn:Hh; injection Hscan as <- <-.
    + repeat split.
      * cbn [map concat block_all_lines fst snd app]. now rewrite <- Hls.
      * constructor.
      * constructor; [split; assumption | assumption].
    + repeat split.
      * now rewrite <- app_comm_cons, <- Hls.
      * constructor; assumption.
      * assumption.
Qed.

(** X19. The splitter cuts the lines of a text exactly at the lines that
    match [SECTION_HEADER_RE]: the lines before the first header line
    form one section without header, if there are any; every header line
    opens a section that holds it and the lines up to the next header
    line, named by the stripped group 1 of its match. *)
Theorem split_into_sections_at_headers (t : text) :
  exists (pre : list text) (bs : list block),
    splitlines t = pre ++ concat (map block_all_lines bs)
    /\ Forall (fun l => is_section_header l = false) pre
    /\ Forall (fun b => is_section_header (fst b) = true
                        /\ Forall (fun l => is_section_header l = false) (snd b)) bs
    /\ split_into_sections t = preamble_section pre ++ map header_section bs.
Proof.
  destruct (scan_sections (splitlines t)) as [pre bs] eqn:Hscan.
  exists pre, bs.
  destruct (scan_sections_partition _ _ _ Hscan) as (Hls & Hpre & Hbs).
  repeat split; try assumption.
  unfold split_into_sections. rewrite split_fold_scan, Hscan.
  cbn [sections current_header current_lines fst snd app].
  unfold close_section, preamble_section. cbn [truthy]. now rewrite orb_false_r.
Qed.

Lemma filter_headers_none (ls : list text) :
  Forall (fun l => is_section_header l = false) ls ->
  List.filter is_section_header ls = [].
Proof.
  induction 1 as [|l ls Hl _ IH]; [reflexivity|].
  cbn [List.filter]. now rewrite Hl.
Qed.

Lemma filter_headers_blocks (bs : list block) :
  Forall (fun b => is_section_header (fst b) = true
                   /\ Forall (fun l => is_section_header l = false) (snd b)) bs ->
  length (List.filter is_section_header (concat (map block_all_lines bs)))
    = length bs.
Proof.
  induction 1 as [|[h body] bs [Hh Hbody] _ IH]; [reflexivity|].
  cbn [map concat block_all_lines fst snd app List.filter] in *.
  rewrite Hh, List.filter_app, (filter_headers_none _ Hbody).
  cbn [app length]. now rewrite IH.
Qed.

(** X20. The number of sections of a text is the number of its header
    lines, plus one when its first line is not a header line. *)
Theorem split_into_sections_count (t : text) :
  length (split_into_sections t)
    = length (List.filter is_section_header (splitlines t))
      + match splitlines t with
        | l :: _ => if is_section_header l then 0 else 1
        | [] => 0
        end.
Proof.
  destruct (scan_sections (splitlines t)) as [pre bs] eqn:Hscan.
  destruct (scan_sections_partition _ _ _ Hscan) as (Hls & Hpre & Hbs).
  unfold split_into_sections. rewrite split_fold_scan, Hscan.
  cbn [sections current_header current_lines fst snd app].
  rewrite Hls, List.filter_app, (filter_headers_none _ Hpre).
  cbn [app]. rewrite (filter_headers_blocks _ Hbs), length_app, length_map.
  unfold close_section. cbn [truthy]. rewrite orb_false_r.
  destruct pre as [|l pre'].
  - cbn [nonempty length app].
    destruct bs as [|[h body] bs']; [reflexivity|].
    apply Forall_cons_iff in Hbs. destruct Hbs as [[Hh _] _].
    cbn [map concat block_all_lines fst snd app] in *. rewrite Hh. lia.
  - apply Forall_cons_iff in Hpre. destruct Hpre as [Hl _].
    cbn [nonempty length app]. rewrite Hl. lia.
Qed.

(** ** Which lines are header lines *)

Lemma lstrip_decompose (s : text) :
  exists ws, s = ws ++ lstrip s /\ Forall (fun c => isspace c = true) ws.
Proof.
  unfold lstrip. induction s as [|c s (ws & Hs & Hws)].
  - exists []. split; [reflexivity | constructor].
  - cbn [drop_while]. destruct (isspace c) eqn:Hc.
    + exists (c :: ws). split; [cbn [app]; now rewrite <- Hs | now constructor].
    + exists []. split; [reflexivity | constructor].
Qed.

Lemma strip_decompose (s : text) :
  exists ws1 ws2,
    s = ws1 ++ strip s ++ ws2
    /\ Forall (fun c => isspace c = true) ws1
    /\ Forall (fun c => isspace c = true) ws2.
Proof.
  destruct (lstrip_decompose s) as (ws1 & Hs & Hws1).
  destruct (lstrip_decompose (rev (lstrip s))) as (ws2 & Hr & Hws2).
  exists ws1, (rev ws2). repeat split.
  - unfold strip, rstrip. rewrite <- rev_app_distr. fold (lstrip (rev (lstrip s))).
    now rewrite <- Hr, rev_involutive.
  - exact Hws1.
  - now apply Forall_rev.
Qed.

Lemma rstrip_spaces_app (s ws : text) :
  Forall (fun c => isspace c = true) ws -> rstrip (s ++ ws) = rstrip s.
Proof.
  intros Hws. unfold rstrip. rewrite rev_app_distr. f_equal.
  apply lstrip_spaces_app. now apply Forall_rev.
Qed.

Lemma rstrip_nonspace_last (s : text) (c : ascii) :
  isspace c = false -> rstrip (s ++ [c]) = s ++ [c].
Proof.
  intros Hc. unfold rstrip. rewrite rev_app_distr. cbn [rev app drop_while].
  rewrite Hc. cbn [rev]. now rewrite rev_involutive.
Qed.

(** Stripping a bracketed name with white space around it gives the
    bracketed name. *)
Lemma strip_bracketed (ws1 name ws2 : text) :
  Forall (fun c => isspace c = true) ws1 ->
  Forall (fun c => isspace c = true) ws2 ->
  strip (ws1 ++ "["%char :: name ++ "]"%char :: ws2) = "["%char :: name ++ s2l "]".
Proof.
  intros H1 H2. unfold strip. rewrite lstrip_spaces_app by exact H1.
  unfold lstrip. cbn [drop_while]. change (isspace "[") with false. cbv iota.
  change ("["%char :: name ++ "]"%char :: ws2)
    with (("["%char :: name) ++ "]"%char :: ws2).
  change ("]"%char :: ws2) with (["]"%char] ++ ws2).
  rewrite app_assoc, rstrip_spaces_app by exact H2.
  now rewrite rstrip_nonspace_last.
Qed.

Lemma lit_open_bracket (s s' : text) :
  lit true (s2l "[") s = Some s' -> s = "["%char :: s'.
Proof.
  destruct s as [|c s]; [discriminate|]. cbn [s2l list_ascii_of_string lit].
  destruct (char_eq true "[" c) eqn:Hc; [|discriminate].
  intros H. injection H as <-. f_equal.
  destruct c as [[] [] [] [] [] [] [] []]; vm_compute in Hc;
    first [reflexivity | discriminate Hc].
Qed.

Lemma lit_close_bracket (s s' : text) :
  lit true (s2l "]") s = Some s' -> s = "]"%char :: s'.
Proof.
  destruct s as [|c s]; [discriminate|]. cbn [s2l list_ascii_of_string lit].
  destruct (char_eq true "]" c) eqn:Hc; [|discriminate].
  intros H. injection H as <-. f_equal.
  destruct c as [[] [] [] [] [] [] [] []]; vm_compute in Hc;
    first [reflexivity | discriminate Hc].
Qed.

Lemma star_lazy_complete (f : ascii -> bool) (k : text -> option groups)
    (ws s' : text) :
  Forall (fun c => f c = true) ws ->
  truthy (k s') = true ->
  truthy (star_lazy f (ws ++ s') k) = true.
Proof.
  intros Hws Hk. induction Hws as [|c ws Hc _ IH].
  - cbn [app]. destruct s' as [|c s'']; cbn [star_lazy];
      (destruct (k _); [reflexivity | discriminate Hk]).
  - cbn [app star_lazy]. destruct (k (c :: ws ++ s')); [reflexivity|].
    now rewrite Hc.
Qed.

(** The shape of a header line. *)
Lemma header_match_shape (line : text) (m : groups) :
  re_match SECTION_HEADER_RE line = Some m ->
  strip line = "["%char :: group 1 m ++ s2l "]"
  /\ group 1 m <> []
  /\ Forall (fun c => c <> LF) (group 1 m).
Proof.
  unfold re_match, SECTION_HEADER_RE.
  cbn [body ignorecase rseq fold_right rmatch cset_mem].
  rewrite Nat.eqb_refl. intros H.
  apply star_greedy_split in H. destruct H as (ws1 & s1 & -> & Hws1 & H).
  destruct (lit true (s2l "[") s1) as [s2|] eqn:Hopen; [|discriminate H].
  apply lit_open_bracket in Hopen. subst s1.
  destruct s2 as [|c s3]; [discriminate H|].
  destruct (negb (ascii_eqb c LF)) eqn:Hc; [|discriminate H].
  apply star_lazy_split in H. destruct H as (r & s4 & -> & Hr & H).
  change (c :: r ++ s4) with ((c :: r) ++ s4) in H.
  rewrite firstn_app_minus in H.
  destruct (lit true (s2l "]") s4) as [s5|] eqn:Hclose; [|discriminate H].
  apply lit_close_bracket in Hclose. subst s4.
  apply star_greedy_split in H. destruct H as (ws2 & s6 & -> & Hws2 & H).
  assert (Hs6 : Forall (fun c => isspace c = true) s6 /\ m = [(1, c :: r)]).
  { destruct s6 as [|d [|d' s7]]; [| |discriminate H].
    - injection H as <-. split; [constructor | reflexivity].
    - destruct (ascii_eqb d LF) eqn:Hd; [|discriminate H].
      injection H as <-. apply ascii_eqb_eq in Hd. subst d.
      split; [repeat constructor | reflexivity]. }
  destruct Hs6 as [Hs6 ->]. cbn [group Nat.eqb].
  repeat split.
  - apply (strip_bracketed ws1 (c :: r) (ws2 ++ s6));
      [exact Hws1 | now apply Forall_app].
  - discriminate.
  - constructor.
    + intros ->. discriminate Hc.
    + eapply Forall_impl; [exact Hr|]. cbn beta. intros d Hd ->. discriminate Hd.
Qed.

(** X21. A line is a header line for the splitter exactly when its
    stripped form is an opening bracket, a name that is not empty and has
    no line feed, and a closing bracket; group 1 of the match is that
    name, brackets inside it included. *)
Theorem section_header_spec (line : text) :
  (forall m, re_match SECTION_HEADER_RE line = Some m ->
             strip line = s2l "[" ++ group 1 m ++ s2l "]"
             /\ group 1 m <> []
             /\ Forall (fun c => c <> LF) (group 1 m))
  /\ (forall name, strip line = s2l "[" ++ name ++ s2l "]" ->
                   name <> [] ->
                   Forall (fun c => c <> LF) name ->
                   exists m, re_match SECTION_HEADER_RE line = Some m
                             /\ group 1 m = name).
Proof.
  split; [exact (header_match_shape line)|].
  intros name Hstrip Hne Hlf.
  assert (Hm : truthy (re_match SECTION_HEADER_RE line) = true).
  { destruct (strip_decompose line) as (ws1 & ws2 & Hline & Hws1 & Hws2).
    rewrite Hstrip in Hline. rewrite Hline.
    unfold re_match, SECTION_HEADER_RE.
    cbn [body ignorecase rseq fold_right rmatch cset_mem].
    rewrite Nat.eqb_refl.
    apply star_greedy_complete; [exact Hws1|].
    rewrite <- !app_assoc.
    rewrite (lit_ci_app (s2l "[") (s2l "[")) by reflexivity.
    destruct name as [|c r]; [now contradiction Hne|].
    apply Forall_cons_iff in Hlf. destruct Hlf as [Hc Hr].
    cbn [app]. destruct (ascii_eqb c LF) eqn:Ec;
      [apply ascii_eqb_eq in Ec; contradiction|].
    cbn [negb]. apply star_lazy_complete.
    - now apply not_lf_any.
    - rewrite (lit_ci_app (s2l "]") (s2l "]")) by reflexivity.
      rewrite star_greedy_all; [reflexivity | exact Hws2 | reflexivity]. }
  destruct (re_match SECTION_HEADER_RE line) as [m|] eqn:E; [|discriminate Hm].
  exists m. split; [reflexivity|].
  destruct (header_match_shape line m E) as (Hs & _ & _).
  rewrite Hstrip in Hs. cbn [s2l list_ascii_of_string app] in Hs.
  injection Hs as Hs. now apply app_inv_tail in Hs.
Qed.

(** ** Header lines and rewritten lines under both passes *)







(** ** A manually excluded section in the FaceFix pass *)

Lemma face_all_changes_app (manual_excludes : gset text) (xs ys : list section) :
  forall off : nat,
    face_all_changes manual_excludes off (xs ++ ys)
      = face_all_changes manual_excludes off xs
        ++ face_all_changes manual_excludes (off + length (section_lines xs)) ys.
Proof.
  induction xs as [|[h lines] xs IH]; intros off.
  - cbn. now rewrite Nat.add_0_r.
  - cbn [app face_all_changes fst snd]. rewrite IH, <- app_assoc.
    unfold section_lines. cbn [map concat fst snd].
    now rewrite length_app, Nat.add_assoc.
Qed.

Lemma face_all_out_app (manual_excludes : gset text) (xs ys : list section) :
  face_all_out manual_excludes (xs ++ ys)
    = face_all_out manual_excludes xs ++ face_all_out manual_excludes ys.
Proof. unfold face_all_out. now rewrite map_app, concat_app. Qed.

Lemma face_not_allowed_lines (h : option text) (lines : list text) :
  forall off : nat,
    face_changes_from false h off lines = []
    /\ map (face_out_line false) lines = lines.
Proof.
  induction lines as [|l rest IH]; intros off; [split; reflexivity|].
  destruct (IH (S off)) as [E1 E2]. cbn [face_changes_from map].
  rewrite E1, E2. split; reflexivity.
Qed.

(** X24. A section with a header name that is not empty and whose
    bracketed name is in the manual exclusion set comes out of the
    FaceFix pass as it is, between the texts the pass gives for the
    sections before and after it, and no change record carries a line
    number of that section, whatever the mode.  (For an empty header
    name the pass skips the lookup in the set.) *)
Theorem face_pass_skips_excluded_section (secs1 secs2 : list section)
    (h : text) (lines : list text) (auto_mode : bool)
    (manual_excludes : gset text) :
  h <> [] ->
  bracket (Some h) ∈ manual_excludes ->
  snd (process_face_sections (secs1 ++ (Some h, lines) :: secs2)
         auto_mode manual_excludes)
    = snd (process_face_sections secs1 auto_mode manual_excludes)
      ++ join lines
      ++ snd (process_face_sections secs2 auto_mode manual_excludes)
  /\ Forall (fun c => change_line_no c <= length (section_lines secs1)
                      \/ length (section_lines secs1) + length lines
                         < change_line_no c)
       (fst (process_face_sections (secs1 ++ (Some h, lines) :: secs2)
               auto_mode manual_excludes)).
Proof.
  intros Hne Hin. rewrite !process_face_sections_eq. cbn [fst snd].
  assert (Hal : face_allowed manual_excludes (Some h) lines = false).
  { unfold face_allowed. destruct h as [|c h]; [now contradiction Hne|].
    cbn [str_truthy]. now rewrite (bool_decide_eq_true_2 _ Hin). }
  destruct (face_not_allowed_lines (Some h) lines (length (section_lines secs1)))
    as [Hch Hout].
  split.
  - rewrite face_all_out_app. unfold face_all_out at 2.
    cbn [map concat]. unfold face_section_out at 1. cbn [fst snd].
    rewrite Hal, Hout. fold (face_all_out manual_excludes secs2).
    now rewrite !join_app.
  - rewrite face_all_changes_app. cbn [face_all_changes fst snd Nat.add].
    rewrite Hal, Hch. cbn [app]. apply Forall_app. split.
    + destruct (face_all_changes_sorted manual_excludes secs1 0) as [_ Hb].
      eapply Forall_impl; [exact Hb|]. cbn beta. intros c [_ H2]. left. exact H2.
    + destruct (face_all_changes_sorted manual_excludes secs2
                  (length (section_lines secs1) + length lines)) as [_ Hb].
      eapply Forall_impl; [exact Hb|]. cbn beta. intros c [H1 _]. right. exact H1.
Qed.

Lemma face_pass_skips_excluded_section_witness :
  snd (process_face_sections
         ([] ++ (Some (s2l "TextureOverrideFace"),
                 [ln "[TextureOverrideFace]"; ln "ps-t0 = x"]) :: [])
         false {[ s2l "[TextureOverrideFace]" ]})
    = snd (process_face_sections [] false {[ s2l "[TextureOverrideFace]" ]})
      ++ join [ln "[TextureOverrideFace]"; ln "ps-t0 = x"]
      ++ snd (process_face_sections [] false {[ s2l "[TextureOverrideFace]" ]})
  /\ Forall (fun c => change_line_no c <= length (section_lines [])
                      \/ length (section_lines [])
                         + length [ln "[TextureOverrideFace]"; ln "ps-t0 = x"]
                         < change_line_no c)
       (fst (process_face_sections
               ([] ++ (Some (s2l "TextureOverrideFace"),
                       [ln "[TextureOverrideFace]"; ln "ps-t0 = x"]) :: [])
               false {[ s2l "[TextureOverrideFace]" ]})).
Proof.
  apply (face_pass_skips_excluded_section [] [] (s2l "TextureOverrideFace")
           [ln "[TextureOverrideFace]"; ln "ps-t0 = x"] false
           {[ s2l "[TextureOverrideFace]" ]}).
  - discriminate.
  - apply elem_of_singleton. vm_compute. reflexivity.
Defined.

(** ** The change list of the driver *)

Lemma face_all_changes_kind (manual_excludes : gset text) (secs : list section) :
  Forall (fun c => is_face c = true) (face_all_changes manual_excludes 0 secs).
Proof.
  eapply Forall_impl; [exact (face_all_changes_records manual_excludes secs [])|].
  cbn beta. intros c (h & i & l & m & -> & _). reflexivity.
Qed.

Lemma orfix_block_model_kind (blk : list text) (name : option text) :
  Forall (fun c => is_add c || is_remove c = true) (snd (orfix_block_model blk name)).
Proof.
  assert (Hrem : Forall (fun c => is_add c || is_remove c = true)
                   (map (fun x => ORFIX_REMOVE name (strip x))
                      (List.filter is_run_line blk))).
  { induction (List.filter is_run_line blk); constructor; [reflexivity | assumption]. }
  unfold orfix_block_model.
  destruct (last_slot 0 blk None); [|exact Hrem].
  destruct (_ && _); [|exact Hrem].
  cbn [snd]. apply Forall_app. split; [exact Hrem|]. repeat constructor.
Qed.

Lemma blocks_out_changes_kind (auto_mode : bool) (manual_excludes : gset text)
    (bs : list block) :
  Forall (fun c => is_add c || is_remove c = true)
    (blocks_out_changes auto_mode manual_excludes bs).
Proof.
  unfold blocks_out_changes. induction bs as [|b bs IH]; [constructor|].
  cbn [map concat]. apply Forall_app. split; [|exact IH].
  unfold block_out, pending_out. destruct (_ && _); [|constructor].
  rewrite process_orfix_block_model. apply orfix_block_model_kind.
Qed.

(** X25. The change list of the driver holds the FaceFix records first
    and the ORFix records, insertions and removals, after them; and the
    driver reports changes exactly when that list is not empty. *)
Theorem driver_changes_face_then_orfix (content : text) (auto_mode : bool)
    (manual_excludes : gset text) (process_disabled : bool) :
  exists (fc oc : list change),
    snd (fst (process_file_combined (Some content) auto_mode manual_excludes
                process_disabled)) = fc ++ oc
    /\ Forall (fun c => is_face c = true) fc
    /\ Forall (fun c => is_add c || is_remove c = true) oc
    /\ fst (fst (process_file_combined (Some content) auto_mode manual_excludes
                   process_disabled)) = nonempty (fc ++ oc).
Proof.
  unfold process_file_combined.
  destruct (_ && _).
  - exists [], []. repeat split; constructor.
  - rewrite process_face_sections_eq, process_orfix_sections_blocks.
    destruct (scan_blocks _) as [pre bs]. rewrite map_id. cbn [fst snd].
    eexists; eexists. repeat split.
    + apply face_all_changes_kind.
    + apply blocks_out_changes_kind.
Qed.

(** ** Names excluded in auto mode *)

(** X10. In auto mode every name that, put in lower case, contains [face]
    or [limb] is excluded. *)
Theorem auto_mode_excludes_face_and_limb_names (name : text) :
  (exists a b : text,
     str_lower name = a ++ s2l "face" ++ b
     \/ str_lower name = a ++ s2l "limb" ++ b) ->
  should_auto_mode_exclude (Some name) = true.
Proof. apply auto_mode_exclude_spec. Qed.

Lemma auto_mode_excludes_face_and_limb_names_witness :
  should_auto_mode_exclude (Some (s2l "TextureOverrideLIMBSArmor")) = true.
Proof.
  apply (auto_mode_excludes_face_and_limb_names (s2l "TextureOverrideLIMBSArmor")).
  exists (s2l "textureoverride"), (s2l "sarmor"). right. vm_compute. reflexivity.
Defined.

(** ** The check for a directive that is already there *)

Lemma text_eqb_eq (a : text) : forall b : text, text_eqb a b = true -> a = b.
Proof.
  induction a as [|x a IH]; intros [|y b] H; try discriminate H; [reflexivity|].
  cbn [text_eqb] in H. apply andb_true_iff in H. destruct H as [Hx Hab].
  apply ascii_eqb_eq in Hx. subst y. now rewrite (IH b Hab).
Qed.

(** A line whose trimmed text is a directive is a run line. *)
Lemma directive_text_is_run_line (b : bool) (x : text) :
  strip x = strip (if b then ORFIX_RUN else NNFIX_RUN) -> is_run_line x = true.
Proof.
  intros H. destruct (strip_decompose x) as (ws1 & ws2 & Hx & Hws1 & _).
  rewrite H in Hx. rewrite Hx.
  unfold is_run_line, re_match, RUN_LINE_PATTERN.
  cbn [body ignorecase rseq fold_right rmatch cset_mem].
  apply star_greedy_complete; [exact Hws1|].
  destruct b.
  - change (strip ORFIX_RUN) with (s2l RUN_OR). cbn. reflexivity.
  - change (strip NNFIX_RUN) with (s2l RUN_NN). cbn. reflexivity.
Qed.

Lemma kept_line_not_directive (blk : list text) (n : nat) (b : bool) :
  n < length (List.filter (fun x => negb (is_run_line x)) blk) ->
  text_eqb (strip (nth n (List.filter (fun x => negb (is_run_line x)) blk) []))
    (strip (if b then ORFIX_RUN else NNFIX_RUN)) = false.
Proof.
  intros Hn. destruct (text_eqb _ _) eqn:E; [exfalso | reflexivity].
  apply text_eqb_eq, directive_text_is_run_line in E.
  pose proof (nth_In _ ([] : text) Hn) as Hin.
  apply List.filter_In in Hin. destruct Hin as [_ Hneg].
  rewrite E in Hneg. discriminate Hneg.
Qed.

(** X26. Whenever the index recorded by the first pass is below the
    number of lines left by the second pass, [process_orfix_block]
    inserts the directive at that index plus one and records the
    insertion: the check for a directive already standing there never
    holds, since the second pass has removed every line with that
    trimmed text. *)
Theorem orfix_block_inserts_whenever_guard_holds (blk : list text)
    (name : option text) (i : nat) :
  snd (first_pass blk) = Some i ->
  i < length (fst (second_pass name (fst (first_pass blk)))) ->
  exists directive : text,
    (directive = ORFIX_RUN \/ directive = NNFIX_RUN)
    /\ process_orfix_block blk name
       = Ok (py_insert (i + 1) directive
               (fst (second_pass name (fst (first_pass blk)))),
             snd (second_pass name (fst (first_pass blk)))
             ++ [ORFIX_ADD name (strip directive)]).
Proof.
  rewrite first_pass_eq, second_pass_eq. cbn [fst snd]. intros Hi Hlt.
  rewrite process_orfix_block_model. unfold orfix_block_model. rewrite Hi.
  set (has_normal := existsb (contains (s2l "NormalMap")) blk).
  exists (if has_normal then ORFIX_RUN else NNFIX_RUN).
  split; [destruct has_normal; [left | right]; reflexivity|].
  apply Nat.ltb_lt in Hlt. rewrite Hlt. cbn [andb].
  destruct (i + 1 <? length (List.filter (fun x => negb (is_run_line x)) blk))
    eqn:Hn; cbn [andb negb]; [|reflexivity].
  apply Nat.ltb_lt in Hn. now rewrite (kept_line_not_directive blk (i + 1) _ Hn).
Qed.

Lemma orfix_block_inserts_whenever_guard_holds_witness :
  exists directive : text,
    (directive = ORFIX_RUN \/ directive = NNFIX_RUN)
    /\ process_orfix_block [ln "ps-t0 = a"; ln RUN_NN] (Some (s2l "CommandListX"))
       = Ok (py_insert (0 + 1) directive
               (fst (second_pass (Some (s2l "CommandListX"))
                       (fst (first_pass [ln "ps-t0 = a"; ln RUN_NN])))),
             snd (second_pass (Some (s2l "CommandListX"))
                    (fst (first_pass [ln "ps-t0 = a"; ln RUN_NN])))
             ++ [ORFIX_ADD (Some (s2l "CommandListX")) (strip directive)]).
Proof.
  apply (orfix_block_inserts_whenever_guard_holds
           [ln "ps-t0 = a"; ln RUN_NN] (Some (s2l "CommandListX")) 0).
  - vm_compute. reflexivity.
  - vm_compute. lia.
Defined.

(** ** Where the directive goes *)

(** X27. For a block whose last slot line (left-stripped form starting
    with [ps-t] in lower case and a digit) has no run line before it,
    [process_orfix_block] returns the lines up to that slot line, then
    the directive as the next list entry, then the later lines that are
    no run lines; the directive is the ORFix one when a line of the block
    contains NormalMap and the NNFix one otherwise; the changes are one
    removal for each later run line, then the insertion. *)
Theorem orfix_directive_entry_after_last_slot (pre post : list text)
    (l : text) (name : option text) :
  (exists (d : ascii) (rest : text),
     lstrip l = s2l "ps-t" ++ d :: rest /\ isdigit d = true) ->
  Forall (fun x => is_slot_line x = false) post ->
  Forall (fun x => is_run_line x = false) pre ->
  let blk := pre ++ l :: post in
  let directive :=
    if existsb (contains (s2l "NormalMap")) blk then ORFIX_RUN else NNFIX_RUN in
  process_orfix_block blk name
    = Ok (pre ++ l :: directive
              :: List.filter (fun x => negb (is_run_line x)) post,
          map (fun x => ORFIX_REMOVE name (strip x)) (List.filter is_run_line post)
          ++ [ORFIX_ADD name (strip directive)]).
Proof.
  intros Hl Hpost Hpre blk directive.
  pose proof (orfix_block_directive_after_last_slot pre post l name Hl Hpost Hpre)
    as H.
  cbv zeta in H. fold blk in H. fold directive in H.
  assert (Hp : match List.filter (fun x => negb (is_run_line x)) post with
               | next :: _ => text_eqb (strip next) (strip directive)
               | [] => false
               end = false).
  { pose proof (kept_line_not_directive post 0
                  (existsb (contains (s2l "NormalMap")) blk)) as Hk.
    fold directive in Hk.
    destruct (List.filter (fun x => negb (is_run_line x)) post) as [|next k];
      [reflexivity|].
    apply Hk. cbn [length]. lia. }
  rewrite Hp in H. exact H.
Qed.

Lemma orfix_directive_entry_after_last_slot_witness :
  process_orfix_block
    (ex_scenario_b_pre ++ ex_scenario_b_last :: ex_scenario_b_post)
    (Some (s2l "CommandListBody"))
  = Ok ([ln "ps-t0 = X"; ln "ps-t1 = Y"; ORFIX_RUN; ln "; uses NormalMap"],
        [ORFIX_REMOVE (Some (s2l "CommandListBody")) (s2l RUN_NN);
         ORFIX_ADD (Some (s2l "CommandListBody")) (s2l RUN_OR)]).
Proof.
  apply (orfix_directive_entry_after_last_slot ex_scenario_b_pre
           ex_scenario_b_post ex_scenario_b_last (Some (s2l "CommandListBody"))).
  - exists "1"%char, (ln " = Y"). split; vm_compute; reflexivity.
  - repeat constructor.
  - repeat constructor.
Defined.
